(** * mediapublic: the persistence layer (server/mediapublic/models.py)

    A shallow embedding of the model classes and of the CRUD mixin they
    share.  The relational database and the object-relational mapper are
    outside the repository; they are modelled here by a small store of
    tables (lists of rows in insertion order) whose write statements are
    refused with an [IntegrityError] when the resulting table would break a
    NOT NULL, UNIQUE or PRIMARY KEY declaration of the schema. *)

From stdpp Require Import gmap strings list fin_maps.
From Stdlib Require Import ZArith.

Local Open Scope string_scope.
Local Open Scope list_scope.

(** ** Values held by attributes and columns *)

Definition uuid := N.

(** Python values that reach a column: [None], a [uuid.UUID] (a textual id
    that parses as a UUID is identified with the UUID it denotes), a text
    that is not a UUID, an integer and a timestamp. *)
Inductive value :=
| VNone
| VUuid (u : uuid)
| VText (s : string)
| VInt (z : Z)
| VDateTime (t : N).

Global Instance value_eq_dec : EqDecision value.
Proof. solve_decision. Defined.

(** ** Exceptions *)

Inductive exn :=
| ValueError (msg : string)
| TypeError (msg : string)
| AttributeError (msg : string)
| NameError (name : string)
| DriverError (msg : string)
| UnmappedInstanceError (msg : string)
| StatementError (orig : exn)
| OperationalError (orig : exn)
| IntegrityError (orig : exn).

(** [isinstance(e, sql_exc.StatementError)]: the driver-level errors are
    subclasses of [StatementError] (through [DBAPIError]). *)
Definition is_StatementError (e : exn) : bool :=
  match e with
  | StatementError _ | OperationalError _ | IntegrityError _ => true
  | _ => false
  end.

Definition is_IntegrityError (e : exn) : bool :=
  match e with IntegrityError _ => true | _ => false end.

Definition is_ValueError (e : exn) : bool :=
  match e with ValueError _ => true | _ => false end.

(** [e.orig] *)
Definition orig (e : exn) : exn :=
  match e with
  | StatementError o | OperationalError o | IntegrityError o => o
  | _ => e
  end.

(** ** The schema: thirteen model classes *)

Inductive coltype := UUIDType | UnicodeText | Integer | DateTime.

Record column := Column {
  cname : string;
  ctype : coltype;
  nullable : bool;
  unique : bool;
  primary_key : bool;
  server_default : bool   (* [server_default=func.now()] *)
}.

(** [Column(UUIDType(binary=False), primary_key=True)] *)
Definition pk (n : string) : column := Column n UUIDType false true true false.
(** [Column(ForeignKey('t.id'), nullable=...)]: the type of the referenced id *)
Definition fk (n : string) (null : bool) : column := Column n UUIDType null false false false.
(** [Column(UnicodeText, nullable=False)] *)
Definition text (n : string) : column := Column n UnicodeText false false false false.
(** [Column(UnicodeText)] *)
Definition text_null (n : string) : column := Column n UnicodeText true false false false.
(** [Column(UnicodeText, unique=True)] *)
Definition text_unique (n : string) : column := Column n UnicodeText true true false false.
(** [Column(DateTime)] *)
Definition datetime (n : string) : column := Column n DateTime true false false false.
(** [Column(DateTime, server_default=func.now())] *)
Definition datetime_now (n : string) : column := Column n DateTime true false false true.

Inductive record_type :=
| UserTypes | Users | Comments | Organizations | PlaylistAssignments
| Playlists | People | Recordings | RecordingCategories
| RecordingCategoryAssignments | Howtos | HowtoCategories
| HowtoCategoryAssignments | Blogs.

Global Instance record_type_eq_dec : EqDecision record_type.
Proof. solve_decision. Defined.

Definition tablename (cls : record_type) : string :=
  match cls with
  | UserTypes => "user_types"
  | Users => "users"
  | Comments => "comments"
  | Organizations => "organizations"
  | PlaylistAssignments => "playlist_assignments"
  | Playlists => "playlists"
  | People => "people"
  | Recordings => "recordings"
  | RecordingCategories => "recording_categories"
  | RecordingCategoryAssignments => "recording_category_assignments"
  | Howtos => "howtos"
  | HowtoCategories => "howto_categories"
  | HowtoCategoryAssignments => "howto_category_assignments"
  | Blogs => "blogs"
  end.

(** [TimeStampMixin] *)
Definition TimeStampMixin : list column :=
  [datetime_now "creation_datetime"; datetime_now "modified_datetime"].

(** The columns a class declares in its own body. *)
Definition own_columns (cls : record_type) : list column :=
  match cls with
  | UserTypes =>
      [pk "id"; text "name"; text "description";
       Column "value" Integer false false false false]
  | Users =>
      [pk "id"; text "display_name"; text "email";
       datetime_now "last_longin_datetime"; datetime_now "signup_date";
       text_unique "twitter_handle"; text_unique "twitter_user_id";
       text_null "twitter_auth_token"; text_null "twitter_auth_secret";
       text_null "profile_photo_url";
       fk "user_type_id" true; fk "organization_id" true]
  | Comments =>
      [pk "id"; text "subject"; text "contents";
       fk "parent_comment_id" false; fk "author_id" false;
       fk "organization_id" true; fk "people_id" true;
       fk "recording_id" true; fk "howto_id" true; fk "blog_id" true]
  | Organizations =>
      [pk "id"; text "short_name"; text "long_name";
       text "short_description"; text "long_description";
       text "address_0"; text "address_1"; text "city"; text "state";
       text "zipcode"; text "phone"; text "fax";
       text "primary_website"; text "secondary_website"]
  | PlaylistAssignments =>
      [pk "id"; fk "playlist_id" true; fk "recording_id" false]
  | Playlists =>
      [pk "id"; fk "author_id" true; text "title"; text "description"]
  | People =>
      [pk "id"; text "first"; text "last";
       text "address_0"; text "address_1"; text "city"; text "state";
       text "zipcode"; text "phone"; text "fax";
       text "primary_website"; text "secondary_website";
       text "twitter"; text "facebook"; text "instagram"; text "periscope";
       fk "user_id" false; fk "organization_id" true]
  | Recordings =>
      [pk "id"; text "title"; text "url"; datetime "recorded_datetime";
       fk "organization_id" true]
  | RecordingCategories =>
      [pk "id"; text "name"; text "short_description"; text "long_description"]
  | RecordingCategoryAssignments =>
      [pk "id"; fk "recording_category_id" false; fk "recording_id" false]
  | Howtos =>
      [pk "id"; text "title"; text "contents"; datetime "edit_datetime";
       text "tags"]
  | HowtoCategories =>
      [pk "id"; text "name"; text "short_description"; text "long_description"]
  | HowtoCategoryAssignments =>
      [pk "id"; fk "howto_category_id" false; fk "howto_id" false]
  | Blogs =>
      [pk "id"; text "title"; text "contents"; datetime "edit_datetime";
       text "tags"; fk "author_id" true]
  end.

(** [cls.__table__.columns]: the declarative base copies the columns of
    the mixin onto every class. *)
Definition columns (cls : record_type) : list column :=
  own_columns cls ++ TimeStampMixin.

(** Names a class body binds besides its columns. *)
Definition own_names (cls : record_type) : list string :=
  match cls with
  | Users => ["update_social_login"; "to_dict"]
  | Comments =>
      ["to_dict"; "get_by_organization_id"; "get_by_people_id";
       "get_by_recording_id"; "get_by_howto_id"; "get_by_blog_id"]
  | PlaylistAssignments => ["delete_by_playlist_id_and_recording_id"; "to_dict"]
  | Playlists =>
      ["recordings"; "get_by_owner_id"; "remove_recording_ny_id";
       "get_recordings_by_playlist_id"; "to_dict"]
  | People | Recordings => ["to_dict"; "get_by_organization_id"]
  | _ => ["to_dict"]
  end.

(** [set(cls.__dict__)]: the names bound on the class itself, after the
    declarative base has set it up. *)
Definition class_dict (cls : record_type) : gset string :=
  list_to_set (map cname (columns cls) ++ own_names cls ++
    ["__tablename__"; "__module__"; "__doc__"; "__table__"; "__mapper__";
     "__init__"; "_sa_class_manager"]).

(** Names inherited from [CreationMixin] and from the declarative base. *)
Definition inherited_names : gset string :=
  list_to_set ["add"; "get_all"; "get_by_id"; "delete_by_id"; "update_by_id";
               "reqkeys"; "to_dict"; "metadata"].

(** [hasattr(cls, k)] *)
Definition hasattr (cls : record_type) (k : string) : bool :=
  bool_decide (k ∈ class_dict cls ∪ inherited_names).

Definition is_column (cls : record_type) (k : string) : bool :=
  bool_decide (k ∈ map cname (columns cls)).

(** ** Objects, rows and the store *)

(** A mapped object is its attribute dictionary; a row maps every column
    name to a value.  A missing attribute reads as [None]. *)
Abbreviation obj := (gmap string value).
Abbreviation row := (gmap string value).

Definition getattr (o : obj) (k : string) : value := default VNone (o !! k).

(** The world the module-level [DBSession] talks to: the tables, the
    random source behind [uuid4] and the clock behind [func.now()]. *)
Record world := World {
  tables : gmap string (list row);
  entropy : nat → uuid;
  drawn : nat;
  clock : N
}.

Definition table (cls : record_type) (w : world) : list row :=
  default [] (tables w !! tablename cls).

Definition set_table (cls : record_type) (t : list row) (w : world) : world :=
  World (<[tablename cls := t]> (tables w)) (entropy w) (drawn w) (clock w).

(** ** Computations: state and exceptions *)

Definition M (A : Type) : Type := world → (exn + A) * world.

Global Instance M_ret : MRet M := λ A x w, (inr x, w).
Global Instance M_bind : MBind M := λ A B f m w,
  match m w with
  | (inr x, w') => f x w'
  | (inl e, w') => (inl e, w')
  end.

Definition raise {A} (e : exn) : M A := λ w, (inl e, w).

(** [try: m  except Exception as e: h e] *)
Definition try_except {A} (m : M A) (h : exn → M A) : M A := λ w,
  match m w with
  | (inl e, w') => h e w'
  | r => r
  end.

(** [uuid4()] *)
Definition uuid4 : M value := λ w,
  (inr (VUuid (entropy w (drawn w))),
   World (tables w) (entropy w) (S (drawn w)) (clock w)).

(** ** The mapper and the database *)

(** What the column type does to a statement parameter.  [UUIDType] lets
    [None] and UUIDs through and fails on anything else: with a
    [ValueError] on a text that is not a UUID, with an [AttributeError] on
    a value that is not a text at all. *)
Definition process_bind_param (ty : coltype) (v : value) : exn + value :=
  match ty, v with
  | UUIDType, VText "" =>
      inl (AttributeError "'str' object has no attribute 'hex'")
  | UUIDType, VText _ => inl (ValueError "bytes is not a 16-char string")
  | UUIDType, VInt _ =>
      inl (AttributeError "'int' object has no attribute 'replace'")
  | UUIDType, VDateTime _ =>
      inl (AttributeError "'datetime' object has no attribute 'replace'")
  | _, _ => inr v
  end.

Definition coltype_of (cls : record_type) (k : string) : coltype :=
  match list_find (λ c, cname c = k) (columns cls) with
  | Some (_, c) => ctype c
  | None => UnicodeText
  end.

(** The first parameter of a statement that cannot be bound, if any. *)
Fixpoint bind_params (cls : record_type) (ps : list (string * value)) : option exn :=
  match ps with
  | [] => None
  | (k, v) :: ps' =>
      match process_bind_param (coltype_of cls k) v with
      | inl e => Some e
      | inr _ => bind_params cls ps'
      end
  end.

(** [col == v] in a filter: [IS NULL] for [None], equality otherwise. *)
Definition satisfies (conds : list (string * value)) (r : row) : Prop :=
  Forall (λ kv, getattr r kv.1 = kv.2) conds.

Global Instance satisfies_dec conds r : Decision (satisfies conds r).
Proof. unfold satisfies. apply _. Defined.

(** [DBSession.query(cls).filter(...).all()] *)
Definition query_all (cls : record_type) (conds : list (string * value)) : M (list obj) :=
  λ w,
  match bind_params cls conds with
  | Some e => (inl (StatementError e), w)
  | None => (inr (filter (satisfies conds) (table cls w)), w)
  end.

(** [DBSession.query(cls).filter(...).first()] *)
Definition query_first (cls : record_type) (conds : list (string * value)) : M (option obj) :=
  things ← query_all cls conds; mret (head things).

(** NOT NULL: a primary key or a [nullable=False] column holds a value. *)
Definition not_null_ok (cls : record_type) (r : row) : bool :=
  forallb (λ c, (nullable c && negb (primary_key c))
                || negb (bool_decide (getattr r (cname c) = VNone)))
          (columns cls).

(** The values a column holds, NULLs left out. *)
Definition column_values (k : string) (t : list row) : list value :=
  filter (λ v, v ≠ VNone) (map (λ r, getattr r k) t).

(** UNIQUE and PRIMARY KEY: no value twice; NULLs do not count. *)
Definition unique_ok (c : column) (t : list row) : bool :=
  negb (unique c || primary_key c)
  || bool_decide (NoDup (column_values (cname c) t)).

Definition table_ok (cls : record_type) (t : list row) : bool :=
  forallb (not_null_ok cls) t && forallb (λ c, unique_ok c t) (columns cls).

Definition row_params (cls : record_type) (r : row) : list (string * value) :=
  map (λ c, (cname c, getattr r (cname c))) (columns cls).

(** Execute a write whose result is the table [t']. *)
Definition execute_write (cls : record_type) (ps : list (string * value))
    (t' : list row) : M unit := λ w,
  match bind_params cls ps with
  | Some e => (inl (StatementError e), w)
  | None =>
      if table_ok cls t' then (inr (), set_table cls t' w)
      else (inl (IntegrityError (DriverError "constraint failed")), w)
  end.

(** The row an INSERT of a new object stores: an attribute that is unset
    or [None] takes the server default of its column, NULL without one. *)
Definition insert_value (c : column) (thing : obj) (w : world) : value :=
  match getattr thing (cname c) with
  | VNone => if server_default c then VDateTime (clock w) else VNone
  | v => v
  end.

Definition insert_row (cls : record_type) (thing : obj) (w : world) : row :=
  list_to_map (map (λ c, (cname c, insert_value c thing w)) (columns cls)).

(** [DBSession.add(thing); transaction.commit()] for a new object. *)
Definition DBSession_add_new (cls : record_type) (thing : obj) : M unit := λ w,
  let r := insert_row cls thing w in
  execute_write cls (row_params cls r) (table cls w ++ [r]) w.

(** The row an UPDATE of a loaded object stores. *)
Definition update_row (cls : record_type) (thing : obj) : row :=
  list_to_map (map (λ c, (cname c, getattr thing (cname c))) (columns cls)).

(** [DBSession.add(thing); transaction.commit()] for an object loaded
    under the primary key [key] and changed since. *)
Definition DBSession_add_dirty (cls : record_type) (key : value) (thing : obj) : M unit :=
  λ w,
  let r := update_row cls thing in
  execute_write cls (row_params cls r)
    (map (λ r0, if decide (getattr r0 "id" = key) then r else r0) (table cls w)) w.

(** [DBSession.delete(thing); transaction.commit()] *)
Definition DBSession_delete (cls : record_type) (thing : obj) : M unit := λ w,
  (inr (), set_table cls
     (filter (λ r, getattr r "id" ≠ getattr thing "id") (table cls w)) w).

(** [DBSession.remove(thing)]: [scoped_session.remove] takes no argument. *)
Definition DBSession_remove (thing : obj) : M unit :=
  raise (TypeError "remove() takes 1 positional argument but 2 were given").

(** ** [CreationMixin] *)

(** The constructor call of [add]: the declarative constructor sets the
    keyword arguments that name an attribute of the class and refuses any
    other. *)
Definition construct (cls : record_type) (kwargs : gmap string value) : M obj :=
  if decide (map_Forall (λ k _, hasattr cls k = true) kwargs) then mret kwargs
  else raise (TypeError "invalid keyword argument").

Definition add (cls : record_type) (kwargs : gmap string value) : M obj :=
  thing ← construct cls kwargs;
  thing ← (if decide (getattr thing "id" = VNone)
           then u ← uuid4; mret (<["id" := u]> thing)
           else mret thing);
  DBSession_add_new cls thing;;
  mret thing.

Definition get_all (cls : record_type) : M (list obj) := query_all cls [].

(** The handler of [get_by_id]: a [StatementError] that wraps a
    [ValueError] is replaced by that [ValueError]; for any other
    [StatementError] the handler evaluates [sys.exc_info()], and the module
    does not import [sys]. *)
Definition get_by_id_except (e : exn) : M (option obj) :=
  if is_StatementError e then
    if is_ValueError (orig e) then raise (orig e)
    else raise (NameError "sys")
  else raise e.

Definition get_by_id (cls : record_type) (id : value) : M (option obj) :=
  try_except (query_first cls [("id", id)]) get_by_id_except.

Definition delete_by_id (cls : record_type) (id : value) : M (option obj) :=
  thing ← get_by_id cls id;
  match thing with
  | Some t => DBSession_delete cls t
  | None => mret ()
  end;;
  mret thing.

(** [for k in kwargs: if k in keys: setattr(thing, k, kwargs[k])] *)
Definition setattrs (keys : gset string) (kwargs : gmap string value) (thing : obj) : obj :=
  map_fold (λ k v acc, if decide (k ∈ keys) then <[k := v]> acc else acc) thing kwargs.

Definition update_by_id (cls : record_type) (id : value)
    (kwargs : gmap string value) : M (option obj) :=
  let keys := class_dict cls in
  thing ← get_by_id cls id;
  match thing with
  | Some t =>
      let t' := setattrs keys kwargs t in
      DBSession_add_dirty cls (getattr t "id") t';;
      mret (Some t')
  | None => mret None
  end.

(** ** Serialization to plain mappings *)

(** What [to_dict] builds: attribute values, [str(...)] of a value, lists
    and dictionaries (in insertion order). *)
#[warnings="-register-all"]
Inductive pyobj :=
| PyVal (v : value)
| PyStr (v : value)
| PyList (l : list pyobj)
| PyDict (d : list (string * pyobj)).

Fixpoint dict_set (k : string) (x : pyobj) (d : list (string * pyobj)) :
    list (string * pyobj) :=
  match d with
  | [] => [(k, x)]
  | (k', x') :: d' =>
      if decide (k' = k) then (k, x) :: d' else (k', x') :: dict_set k x d'
  end.

(** [resp.update(k1=x1, ...)] *)
Definition dict_update (d kvs : list (string * pyobj)) : list (string * pyobj) :=
  foldl (λ acc kv, dict_set kv.1 kv.2 acc) d kvs.

Fixpoint dict_get (k : string) (d : list (string * pyobj)) : option pyobj :=
  match d with
  | [] => None
  | (k', x) :: d' => if decide (k' = k) then Some x else dict_get k d'
  end.

(** [CreationMixin.to_dict] *)
Definition to_dict (self : obj) : list (string * pyobj) :=
  [("id", PyStr (getattr self "id"));
   ("creation_datetime", PyStr (getattr self "creation_datetime"))].

(** ** [Users] *)

(** The part of [auth_info] the login path reads. *)
Record auth_info := AuthInfo {
  profile_name_formatted : value;
  profile_photos_0_value : value;
  credentials_oauthAccessTokenSecret : value;
  credentials_oauthAccessToken : value;
  profile_accounts_0_userid : value
}.

(** [DBSession.query(cls).filter(...).update(values=...)] *)
Definition query_update (cls : record_type) (conds values : list (string * value)) :
    M unit := λ w,
  match bind_params cls conds with
  | Some e => (inl (StatementError e), w)
  | None =>
      execute_write cls values
        (map (λ r, if decide (satisfies conds r) then list_to_map values ∪ r else r)
             (table cls w)) w
  end.

(** The keyword arguments of the [Users.add] call of the login path. *)
Definition login_kwargs (social_uname : string) (info : auth_info)
    (provider : string) : gmap string value :=
  list_to_map
    [("email", VText (social_uname +:+ "@" +:+ provider +:+ ".social.auth"));
     ("display_name", profile_name_formatted info);
     ("twitter_handle", VText social_uname);
     ("profile_photo_url", profile_photos_0_value info);
     ("twitter_auth_secret", credentials_oauthAccessTokenSecret info);
     ("twitter_auth_token", credentials_oauthAccessToken info);
     ("twitter_user_id", profile_accounts_0_userid info)].

(** The [values] of the fallback update. *)
Definition login_values (info : auth_info) : list (string * value) :=
  [("twitter_auth_secret", credentials_oauthAccessTokenSecret info);
   ("twitter_auth_token", credentials_oauthAccessToken info);
   ("twitter_user_id", profile_accounts_0_userid info)].

Definition update_social_login (social_uname : string) (info : auth_info)
    (provider : string) : M (bool * value) :=
  try_except
    (user ← add Users (login_kwargs social_uname info provider);
     mret (false, getattr user "id"))
    (λ e,
       if is_IntegrityError e then
         query_update Users [("twitter_handle", VText social_uname)]
           (login_values info);;
         user ← query_first Users [("twitter_handle", VText social_uname)];
         match user with
         | Some u => mret (true, getattr u "id")
         | None => raise (AttributeError "'NoneType' object has no attribute 'id'")
         end
       else raise e).

(** ** [Comments] *)

Definition Comments_get_by_organization_id (id : value) : M (list obj) :=
  query_all Comments [("organization_id", id)].

Definition Comments_get_by_people_id (id : value) : M (list obj) :=
  query_all Comments [("people_id", id)].

Definition Comments_get_by_recording_id (id : value) : M (list obj) :=
  query_all Comments [("recording_id", id)].

Definition Comments_get_by_howto_id (id : value) : M (list obj) :=
  query_all Comments [("howto_id", id)].

Definition Comments_get_by_blog_id (id : value) : M (list obj) :=
  query_all Comments [("blog_id", id)].

(** ** [PlaylistAssignments] *)

Definition delete_by_playlist_id_and_recording_id (pid rid : value) : M bool :=
  playlist ← query_first PlaylistAssignments
                [("playlist_id", pid); ("recording_id", rid)];
  match playlist with
  | Some p => DBSession_remove p;; mret true
  | None => mret false
  end.

(** ** [Recordings] *)

Definition Recordings_to_dict (self : obj) : list (string * pyobj) :=
  dict_update (to_dict self)
    [("title", PyVal (getattr self "title"));
     ("url", PyVal (getattr self "url"));
     ("recorded_datetime", PyStr (getattr self "recorded_datetime"));
     ("organization_id", PyVal (getattr self "organization_id"))].

Definition Recordings_get_by_organization_id (id : value) : M (list obj) :=
  query_all Recordings [("organization_id", id)].

(** ** [People] *)

Definition People_get_by_organization_id (id : value) : M (list obj) :=
  query_all People [("organization_id", id)].

(** ** [Playlists] *)

(** [DBSession.query(Recordings).join(PlaylistAssignments).filter(...).all()]:
    the join is on the foreign key from the assignment to the recording
    (a NULL never joins), and a query for one entity yields each object
    once. *)
Definition query_recordings_join_assignments (conds : list (string * value)) :
    M (list obj) := λ w,
  match bind_params PlaylistAssignments conds with
  | Some e => (inl (StatementError e), w)
  | None =>
      (inr (remove_dups
         (r ← table Recordings w;
          a ← table PlaylistAssignments w;
          if decide (getattr a "recording_id" ≠ VNone
                     ∧ getattr r "id" = getattr a "recording_id"
                     ∧ satisfies conds a)
          then [r] else [])), w)
  end.

Definition Playlists_get_by_owner_id (id : value) : M (list obj) :=
  query_all Playlists [("author_id", id)].

(** The two tests on the result ([None], not a list) never fire: [all()]
    returns a list. *)
Definition get_recordings_by_playlist_id (id : value) : M (list obj) :=
  query_recordings_join_assignments [("playlist_id", id)].

(** [Playlists.remove_recording_ny_id]; [DBSession.delete(None)] is refused
    by the session. *)
Definition remove_recording_ny_id (pid rid : value) : M unit :=
  assignment ← query_first PlaylistAssignments
                  [("playlist_id", pid); ("recording_id", rid)];
  match assignment with
  | Some a => DBSession_delete PlaylistAssignments a
  | None => raise (UnmappedInstanceError "Class 'builtins.NoneType' is not mapped")
  end.

Definition Playlists_to_dict (self : obj) : M (list (string * pyobj)) :=
  let resp := to_dict self in
  recordings ← get_recordings_by_playlist_id (getattr self "id");
  mret (dict_update resp
    [("author_id", PyVal (getattr self "author_id"));
     ("title", PyVal (getattr self "title"));
     ("recordings", PyList (map (λ r, PyDict (Recordings_to_dict r)) recordings))]).

(** ** The public operations and the states they reach *)

Inductive op :=
| Add (cls : record_type) (kwargs : gmap string value)
| GetAll (cls : record_type)
| GetById (cls : record_type) (id : value)
| DeleteById (cls : record_type) (id : value)
| UpdateById (cls : record_type) (id : value) (kwargs : gmap string value)
| UpdateSocialLogin (social_uname : string) (info : auth_info) (provider : string)
| CommentsGetByOrganizationId (id : value)
| CommentsGetByPeopleId (id : value)
| CommentsGetByRecordingId (id : value)
| CommentsGetByHowtoId (id : value)
| CommentsGetByBlogId (id : value)
| DeleteByPlaylistIdAndRecordingId (pid rid : value)
| PlaylistsGetByOwnerId (id : value)
| RemoveRecordingNyId (pid rid : value)
| GetRecordingsByPlaylistId (id : value)
| PlaylistsToDict (self : obj)
| PeopleGetByOrganizationId (id : value)
| RecordingsGetByOrganizationId (id : value).

(** Run a computation for its effect. *)
Definition discard {A} (m : M A) : M unit := m ≫= λ _, mret ().

Definition run (o : op) : M unit :=
  match o with
  | Add cls kwargs => discard (add cls kwargs)
  | GetAll cls => discard (get_all cls)
  | GetById cls id => discard (get_by_id cls id)
  | DeleteById cls id => discard (delete_by_id cls id)
  | UpdateById cls id kwargs => discard (update_by_id cls id kwargs)
  | UpdateSocialLogin h info p => discard (update_social_login h info p)
  | CommentsGetByOrganizationId id => discard (Comments_get_by_organization_id id)
  | CommentsGetByPeopleId id => discard (Comments_get_by_people_id id)
  | CommentsGetByRecordingId id => discard (Comments_get_by_recording_id id)
  | CommentsGetByHowtoId id => discard (Comments_get_by_howto_id id)
  | CommentsGetByBlogId id => discard (Comments_get_by_blog_id id)
  | DeleteByPlaylistIdAndRecordingId pid rid =>
      discard (delete_by_playlist_id_and_recording_id pid rid)
  | PlaylistsGetByOwnerId id => discard (Playlists_get_by_owner_id id)
  | RemoveRecordingNyId pid rid => discard (remove_recording_ny_id pid rid)
  | GetRecordingsByPlaylistId id => discard (get_recordings_by_playlist_id id)
  | PlaylistsToDict self => discard (Playlists_to_dict self)
  | PeopleGetByOrganizationId id => discard (People_get_by_organization_id id)
  | RecordingsGetByOrganizationId id =>
      discard (Recordings_get_by_organization_id id)
  end.

(** The states reached from a database without rows. *)
Inductive reachable : world → Prop :=
| reachable_init (e : nat → uuid) (c : N) : reachable (World ∅ e 0 c)
| reachable_step (w : world) (o : op) :
    reachable w → reachable (run o w).2.

(** Every table keeps the constraints of its schema. *)
Definition wf (w : world) : Prop :=
  ∀ cls, table_ok cls (table cls w) = true.


(** A computation that keeps the constraints and whose failure leaves
    every table as it was. *)
Definition safe {A} (m : M A) : Prop :=
  ∀ w, wf w →
    wf (m w).2
    ∧ ((∃ e, (m w).1 = inl e) → ∀ cls, table cls (m w).2 = table cls w).

(** ** [to_dict] of the other classes *)

Definition UserTypes_to_dict (self : obj) : list (string * pyobj) :=
  dict_update (to_dict self)
    [("name", PyVal (getattr self "name"));
     ("description", PyVal (getattr self "description"));
     ("value", PyVal (getattr self "value"))].

Definition Users_to_dict (self : obj) : list (string * pyobj) :=
  dict_update (to_dict self)
    [("display_name", PyVal (getattr self "display_name"));
     ("twitter_handle", PyVal (getattr self "twitter_handle"));
     ("email", PyVal (getattr self "email"));
     ("user_type", PyVal (getattr self "user_type_id"));
     ("organization_id", PyVal (getattr self "organization_id"))].

Definition Comments_to_dict (self : obj) : list (string * pyobj) :=
  dict_update (to_dict self)
    [("subject", PyVal (getattr self "subject"));
     ("contents", PyVal (getattr self "contents"));
     ("parent_comment_id", PyVal (getattr self "parent_comment_id"));
     ("author_id", PyVal (getattr self "author_id"))].

Definition Organizations_to_dict (self : obj) : list (string * pyobj) :=
  dict_update (to_dict self)
    [("short_name", PyVal (getattr self "short_name"));
     ("long_name", PyVal (getattr self "long_name"));
     ("short_description", PyVal (getattr self "short_description"));
     ("long_description", PyVal (getattr self "long_description"));
     ("address_0", PyVal (getattr self "address_0"));
     ("address_1", PyVal (getattr self "address_1"));
     ("city", PyVal (getattr self "city"));
     ("state", PyVal (getattr self "state"));
     ("zipcode", PyVal (getattr self "zipcode"));
     ("phone", PyVal (getattr self "phone"));
     ("fax", PyVal (getattr self "fax"));
     ("primary_website", PyVal (getattr self "primary_website"));
     ("secondary_website", PyVal (getattr self "secondary_website"))].

Definition PlaylistAssignments_to_dict (self : obj) : list (string * pyobj) :=
  dict_update (to_dict self)
    [("playlist_id", PyVal (getattr self "playlist_id"));
     ("recording_id", PyVal (getattr self "recording_id"))].

Definition People_to_dict (self : obj) : list (string * pyobj) :=
  dict_update (to_dict self)
    [("first", PyVal (getattr self "first"));
     ("address_0", PyVal (getattr self "address_0"));
     ("address_1", PyVal (getattr self "address_1"));
     ("city", PyVal (getattr self "city"));
     ("state", PyVal (getattr self "state"));
     ("zipcode", PyVal (getattr self "zipcode"));
     ("phone", PyVal (getattr self "phone"));
     ("fax", PyVal (getattr self "fax"));
     ("primary_website", PyVal (getattr self "primary_website"));
     ("secondary_website", PyVal (getattr self "secondary_website"));
     ("twitter", PyVal (getattr self "twitter"));
     ("facebook", PyVal (getattr self "facebook"));
     ("instagram", PyVal (getattr self "instagram"));
     ("periscope", PyVal (getattr self "periscope"));
     ("user_id", PyStr (getattr self "user_id"));
     ("organization_id", PyStr (getattr self "organization_id"))].

Definition RecordingCategories_to_dict (self : obj) : list (string * pyobj) :=
  dict_update (to_dict self)
    [("name", PyVal (getattr self "name"));
     ("short_description", PyVal (getattr self "short_description"));
     ("long_description", PyVal (getattr self "long_description"))].

Definition RecordingCategoryAssignments_to_dict (self : obj) :
    list (string * pyobj) :=
  dict_update (to_dict self)
    [("recording_category_id", PyVal (getattr self "recording_category_id"));
     ("recording_id", PyVal (getattr self "recording_id"))].

Definition Howtos_to_dict (self : obj) : list (string * pyobj) :=
  dict_update (to_dict self)
    [("title", PyVal (getattr self "title"));
     ("contents", PyVal (getattr self "contents"));
     ("edit_datetime", PyVal (getattr self "edit_datetime"));
     ("tags", PyVal (getattr self "tags"))].

Definition HowtoCategories_to_dict (self : obj) : list (string * pyobj) :=
  dict_update (to_dict self)
    [("name", PyVal (getattr self "name"));
     ("short_description", PyVal (getattr self "short_description"));
     ("long_description", PyVal (getattr self "long_description"))].

Definition HowtoCategoryAssignments_to_dict (self : obj) : list (string * pyobj) :=
  dict_update (to_dict self)
    [("howto_category_id", PyVal (getattr self "howto_category_id"));
     ("howto_id", PyVal (getattr self "howto_id"))].

Definition Blogs_to_dict (self : obj) : list (string * pyobj) :=
  dict_update (to_dict self)
    [("title", PyVal (getattr self "title"));
     ("contents", PyVal (getattr self "contents"));
     ("edit_datetime", PyVal (getattr self "edit_datetime"));
     ("tags", PyVal (getattr self "tags"));
     ("author_id", PyVal (getattr self "author_id"))].

(** [self.to_dict()] by the class of [self]; only [Playlists] queries the
    database. *)
Definition to_dict_of (cls : record_type) (self : obj) : M (list (string * pyobj)) :=
  match cls with
  | UserTypes => mret (UserTypes_to_dict self)
  | Users => mret (Users_to_dict self)
  | Comments => mret (Comments_to_dict self)
  | Organizations => mret (Organizations_to_dict self)
  | PlaylistAssignments => mret (PlaylistAssignments_to_dict self)
  | Playlists => Playlists_to_dict self
  | People => mret (People_to_dict self)
  | Recordings => mret (Recordings_to_dict self)
  | RecordingCategories => mret (RecordingCategories_to_dict self)
  | RecordingCategoryAssignments => mret (RecordingCategoryAssignments_to_dict self)
  | Howtos => mret (Howtos_to_dict self)
  | HowtoCategories => mret (HowtoCategories_to_dict self)
  | HowtoCategoryAssignments => mret (HowtoCategoryAssignments_to_dict self)
  | Blogs => mret (Blogs_to_dict self)
  end.

(** The keys of a dictionary, in order. *)
Definition dict_keys (d : list (string * pyobj)) : list string := map fst d.


(** A computation that leaves every table but that of [cls] as it was. *)
Definition only_writes (cls : record_type) {A} (m : M A) : Prop :=
  ∀ w cls', cls' ≠ cls → table cls' (m w).2 = table cls' w.

(** ** Notions used in the statements *)

(** A filter on one column whose parameter is [None] or a UUID. *)
Definition id_value (o : option uuid) : value := from_option VUuid VNone o.

(** What a lookup [m] filtered on the column [k] of [cls] does on every
    argument and in every world: the world is left as it was; for [None] or
    a UUID the result is the rows of the table, in order, whose column [k]
    holds that value; any other argument cannot be bound and the statement
    fails. *)
Definition filtered_lookup (cls : record_type) (k : string)
    (m : value → M (list obj)) : Prop :=
  ∀ (id : value) (w : world),
    (m id w).2 = w ∧
    match id with
    | VNone | VUuid _ =>
        (m id w).1 = inr (filter (λ r, getattr r k = id) (table cls w))
    | _ => ∃ e, (m id w).1 = inl (StatementError e)
    end.

(** The object [add] hands to the session. *)
Definition with_id (kwargs : gmap string value) (w : world) : obj :=
  if decide (getattr kwargs "id" = VNone)
  then <["id" := VUuid (entropy w (drawn w))]> kwargs
  else kwargs.

(** The object the login path hands to [add]. *)
Definition login_thing (h : string) (info : auth_info) (p : string) (w : world) : obj :=
  <["id" := VUuid (entropy w (drawn w))]> (login_kwargs h info p).

(** ** Sample data *)

(** A world without tables whose random source yields 100, 101, ... *)
Definition world0 : world := World ∅ (λ n, N.of_nat n + 100)%N 0 0.

Definition admin_type : gmap string value :=
  list_to_map [("name", VText "admin"); ("description", VText "all rights");
               ("value", VInt 1)].

(** The object and the world after [add UserTypes admin_type] in [world0]. *)
Definition admin_thing : obj := <["id" := VUuid 100%N]> admin_type.

Definition world1 : world :=
  set_table UserTypes [insert_row UserTypes admin_thing world0]
    (World ∅ (entropy world0) 1 0).

(** A recording on a playlist. *)
Definition recording0 : row :=
  list_to_map [("id", VUuid 2%N); ("title", VText "Morning show");
               ("url", VText "http://example.org/a.mp3")].

Definition assignment0 : row :=
  list_to_map [("id", VUuid 7%N); ("playlist_id", VUuid 1%N);
               ("recording_id", VUuid 2%N)].

Definition world_assigned : world :=
  set_table PlaylistAssignments [assignment0]
    (set_table Recordings [recording0] world0).

(** The stored row of [admin_thing], an update of it that also passes a
    key the class does not have, and the world after the update. *)
Definition admin_row : row := insert_row UserTypes admin_thing world0.

Definition rename_kwargs : gmap string value :=
  list_to_map [("name", VText "root"); ("shoe_size", VInt 43)].



(** Two logins: Alice, and Bob whose account carries Alice's user id. *)
Definition alice_info : auth_info :=
  AuthInfo (VText "Alice A.") (VText "http://example.org/alice.png")
           (VText "secret-1") (VText "token-1") (VText "1001").

Definition alice_info' : auth_info :=
  AuthInfo (VText "Alice A.") (VText "http://example.org/alice.png")
           (VText "secret-2") (VText "token-2") (VText "1001").

Definition world_alice : world :=
  (update_social_login "alice" alice_info "twitter" world0).2.

(** The row stored for Alice by her first login. *)
Definition alice_row : row :=
  insert_row Users (login_thing "alice" alice_info "twitter" world0) world0.

(** Two sign-ups without a Twitter account. *)
Definition plain_user (name : string) : gmap string value :=
  list_to_map [("display_name", VText name);
               ("email", VText (name +:+ "@example.org"))].

Definition world_two_plain : world :=
  (run (Add Users (plain_user "carol"))
       (run (Add Users (plain_user "dave")) world0).2).2.



(** * Properties *)

(** ** The store *)

Lemma tablename_inj (c1 c2 : record_type) : tablename c1 = tablename c2 → c1 = c2.
Proof. destruct c1, c2; simpl; intros H; try reflexivity; discriminate H. Qed.

Lemma table_set_table_eq cls t w : table cls (set_table cls t w) = t.
Proof. unfold table, set_table; simpl. by rewrite lookup_insert_eq. Qed.

Lemma table_set_table_ne cls cls' t w :
  cls' ≠ cls → table cls' (set_table cls t w) = table cls' w.
Proof.
  intros Hne. unfold table, set_table; simpl.
  rewrite lookup_insert_ne; [done|]. intros H. by apply Hne, tablename_inj.
Qed.

(** Unfolding of the monad's operations. *)
Ltac unfold_M :=
  unfold mbind, mret, M_bind, M_ret, raise, try_except in *.

Lemma query_all_world cls conds w : (query_all cls conds w).2 = w.
Proof. unfold query_all. by destruct (bind_params cls conds). Qed.

Lemma query_first_world cls conds w : (query_first cls conds w).2 = w.
Proof.
  unfold query_first. unfold_M. unfold query_all.
  by destruct (bind_params cls conds).
Qed.

Lemma query_first_fst cls conds w :
  (query_first cls conds w).1 =
  match (query_all cls conds w).1 with
  | inr things => inr (head things)
  | inl e => inl e
  end.
Proof.
  unfold query_first. unfold_M. unfold query_all.
  by destruct (bind_params cls conds).
Qed.

Lemma bind_params_id cls k o : bind_params cls [(k, id_value o)] = None.
Proof. simpl. destruct (coltype_of cls k), o; reflexivity. Qed.

Lemma filter_satisfies_1 k v (t : list row) :
  filter (satisfies [(k, v)]) t = filter (λ r, getattr r k = v) t.
Proof.
  apply list_filter_iff. intros r. unfold satisfies. split.
  - intros H. by apply Forall_cons in H as [H _].
  - intros H. by repeat constructor.
Qed.

Lemma query_all_id cls k o w :
  query_all cls [(k, id_value o)] w =
  (inr (filter (λ r, getattr r k = id_value o) (table cls w)), w).
Proof.
  unfold query_all. rewrite bind_params_id. by rewrite filter_satisfies_1.
Qed.

Lemma query_all_error cls conds w e :
  bind_params cls conds = Some e →
  query_all cls conds w = (inl (StatementError e), w).
Proof. intros H. unfold query_all. by rewrite H. Qed.

(** ** Filtered lookups *)

Lemma query_all_filtered_lookup cls k :
  coltype_of cls k = UUIDType →
  filtered_lookup cls k (λ id, query_all cls [(k, id)]).
Proof.
  intros Hty id w. split; [apply query_all_world|].
  destruct id as [|u|s|z|t].
  - by rewrite (query_all_id cls k None).
  - by rewrite (query_all_id cls k (Some u)).
  - destruct s; eexists; (erewrite query_all_error; [done|]); simpl;
      by rewrite Hty.
  - eexists. erewrite query_all_error; [done|]. simpl. by rewrite Hty.
  - eexists. erewrite query_all_error; [done|]. simpl. by rewrite Hty.
Qed.

(** C6: each of the five lookups of [Comments] by a foreign key returns
    exactly the stored comments whose column holds the given id, and leaves
    the stored data as it was. *)
Theorem Comments_get_by_foreign_key :
  filtered_lookup Comments "organization_id" Comments_get_by_organization_id
  ∧ filtered_lookup Comments "people_id" Comments_get_by_people_id
  ∧ filtered_lookup Comments "recording_id" Comments_get_by_recording_id
  ∧ filtered_lookup Comments "howto_id" Comments_get_by_howto_id
  ∧ filtered_lookup Comments "blog_id" Comments_get_by_blog_id.
Proof. repeat split; by apply query_all_filtered_lookup. Qed.

(** ** [get_by_id]: the translation of errors *)

Lemma coltype_of_id cls : coltype_of cls "id" = UUIDType.
Proof. by destruct cls. Qed.

Lemma get_by_id_world cls id w : (get_by_id cls id w).2 = w.
Proof.
  unfold get_by_id, try_except.
  pose proof (query_first_world cls [("id", id)] w) as Hw.
  destruct (query_first cls [("id", id)] w) as [[e|r] w']; simpl in *; subst;
    [|done].
  unfold get_by_id_except.
  destruct (is_StatementError e); [destruct (is_ValueError (orig e))|]; done.
Qed.

(** For [None] or a UUID the lookup is the first row holding that id. *)
Lemma get_by_id_id cls o w :
  get_by_id cls (id_value o) w =
  (inr (head (filter (λ r, getattr r "id" = id_value o) (table cls w))), w).
Proof.
  unfold get_by_id, try_except, query_first. unfold_M.
  by rewrite query_all_id.
Qed.

(** The translation itself: a [StatementError] wrapping a [ValueError] is
    raised as that [ValueError]. *)
Lemma get_by_id_raises_orig_ValueError cls id w e :
  (query_first cls [("id", id)] w).1 = inl e →
  is_StatementError e = true → is_ValueError (orig e) = true →
  get_by_id cls id w = (inl (orig e), w).
Proof.
  intros Hq Hs Hv. unfold get_by_id, try_except.
  pose proof (query_first_world cls [("id", id)] w) as Hw.
  destruct (query_first cls [("id", id)] w) as [r w']; simpl in *; subst.
  unfold get_by_id_except. by rewrite Hs, Hv.
Qed.

(** An exception that is no [StatementError] passes through. *)
Lemma get_by_id_except_other e w :
  is_StatementError e = false → get_by_id_except e w = (inl e, w).
Proof. intros H. unfold get_by_id_except. by rewrite H. Qed.

Example get_by_id_malformed_text cls w :
  get_by_id cls (VText "not-a-uuid") w =
  (inl (ValueError "bytes is not a 16-char string"), w).
Proof.
  unfold get_by_id, try_except, query_first. unfold_M.
  erewrite query_all_error; [|simpl; by rewrite coltype_of_id]. done.
Qed.

(** C5: a [StatementError] whose cause is not a [ValueError] does not
    reach the caller of [get_by_id]: with an integer as the id the query
    raises a [StatementError] that wraps an [AttributeError], and
    [get_by_id] raises a [NameError] for the name [sys] in its place. *)
Theorem get_by_id_loses_StatementError (cls : record_type) (z : Z) (w : world) :
  query_first cls [("id", VInt z)] w =
    (inl (StatementError
            (AttributeError "'int' object has no attribute 'replace'")), w)
  ∧ get_by_id cls (VInt z) w = (inl (NameError "sys"), w).
Proof.
  assert (query_first cls [("id", VInt z)] w =
    (inl (StatementError
            (AttributeError "'int' object has no attribute 'replace'")), w))
    as Hq.
  { unfold query_first. unfold_M.
    erewrite query_all_error; [|simpl; by rewrite coltype_of_id]. done. }
  split; [done|]. unfold get_by_id, try_except. by rewrite Hq.
Qed.

(** ** [PlaylistAssignments.delete_by_playlist_id_and_recording_id] *)

Lemma head_filter_is_Some {A} (P : A → Prop) `{∀ x, Decision (P x)} (l : list A) x :
  x ∈ l → P x → ∃ y, head (filter P l) = Some y ∧ y ∈ l ∧ P y.
Proof.
  intros Hin HP.
  assert (x ∈ filter P l) as Hf by (by apply list_elem_of_filter).
  destruct (filter P l) as [|y l'] eqn:E; [by apply not_elem_of_nil in Hf|].
  exists y. split; [done|].
  assert (y ∈ filter P l) as Hy by (rewrite E; left).
  by apply list_elem_of_filter in Hy as [? ?].
Qed.

Lemma filter_none {A} (P : A → Prop) `{∀ x, Decision (P x)} (l : list A) :
  (∀ x, x ∈ l → ¬ P x) → filter P l = [].
Proof.
  induction l as [|x l IH]; intros Hno; [done|].
  rewrite filter_cons_False by (apply Hno; left).
  apply IH. intros y Hy. apply Hno. by right.
Qed.

Lemma filter_satisfies_2 k1 v1 k2 v2 (t : list row) :
  filter (satisfies [(k1, v1); (k2, v2)]) t =
  filter (λ r, getattr r k1 = v1 ∧ getattr r k2 = v2) t.
Proof.
  apply list_filter_iff. intros r. unfold satisfies. split.
  - intros H. apply Forall_cons in H as [H1 H].
    by apply Forall_cons in H as [H2 _].
  - intros [H1 H2]. by repeat constructor.
Qed.

Lemma query_first_assignment po ro w :
  query_first PlaylistAssignments
    [("playlist_id", id_value po); ("recording_id", id_value ro)] w =
  (inr (head (filter (λ r, getattr r "playlist_id" = id_value po
                           ∧ getattr r "recording_id" = id_value ro)
                     (table PlaylistAssignments w))), w).
Proof.
  unfold query_first, query_all. unfold_M.
  replace (bind_params _ _) with (@None exn) by (by destruct po, ro).
  by rewrite filter_satisfies_2.
Qed.

(** Without a matching assignment the answer is [False] and nothing
    changes. *)
Lemma delete_by_playlist_id_and_recording_id_absent po ro w :
  (∀ a, a ∈ table PlaylistAssignments w →
        ¬ (getattr a "playlist_id" = id_value po
           ∧ getattr a "recording_id" = id_value ro)) →
  delete_by_playlist_id_and_recording_id (id_value po) (id_value ro) w =
  (inr false, w).
Proof.
  intros Hno. unfold delete_by_playlist_id_and_recording_id.
  unfold mbind at 1. unfold M_bind. rewrite query_first_assignment.
  destruct (filter _ _) as [|a l] eqn:E; [done|]. exfalso.
  assert (a ∈ filter (λ r, getattr r "playlist_id" = id_value po
                           ∧ getattr r "recording_id" = id_value ro)
                     (table PlaylistAssignments w)) as Ha by (rewrite E; left).
  apply list_elem_of_filter in Ha as [HP Hin]. by apply (Hno a).
Qed.

(** C10: when an assignment of the recording to the playlist exists,
    [delete_by_playlist_id_and_recording_id] raises a [TypeError] from
    [DBSession.remove]; it neither removes the assignment nor returns
    [True]. *)
Theorem delete_by_playlist_id_and_recording_id_present
    (po ro : option uuid) (a : obj) (w : world) :
  a ∈ table PlaylistAssignments w →
  getattr a "playlist_id" = id_value po →
  getattr a "recording_id" = id_value ro →
  delete_by_playlist_id_and_recording_id (id_value po) (id_value ro) w =
  (inl (TypeError "remove() takes 1 positional argument but 2 were given"), w).
Proof.
  intros Hin Hp Hr. unfold delete_by_playlist_id_and_recording_id.
  unfold mbind at 1. unfold M_bind. rewrite query_first_assignment.
  destruct (head_filter_is_Some
    (λ r, getattr r "playlist_id" = id_value po
          ∧ getattr r "recording_id" = id_value ro)
    (table PlaylistAssignments w) a Hin (conj Hp Hr)) as (y & -> & _).
  reflexivity.
Qed.

Lemma delete_by_playlist_id_and_recording_id_present_witness :
  assignment0 ∈ table PlaylistAssignments world_assigned
  ∧ delete_by_playlist_id_and_recording_id (VUuid 1%N) (VUuid 2%N) world_assigned
    = (inl (TypeError "remove() takes 1 positional argument but 2 were given"),
       world_assigned).
Proof.
  assert (assignment0 ∈ table PlaylistAssignments world_assigned) as Hin.
  { unfold world_assigned. rewrite table_set_table_eq. left. }
  split; [exact Hin|].
  apply (delete_by_playlist_id_and_recording_id_present
           (Some 1%N) (Some 2%N) assignment0 world_assigned Hin);
    vm_compute; reflexivity.
Defined.

(** ** The schema's constraints *)

Lemma columns_NoDup cls : NoDup (map cname (columns cls)).
Proof. destruct cls; compute_done. Qed.

Lemma pk_id_column cls : pk "id" ∈ columns cls.
Proof. destruct cls; left. Qed.


Lemma table_ok_unique cls t c :
  table_ok cls t = true → c ∈ columns cls →
  unique c || primary_key c = true →
  NoDup (column_values (cname c) t).
Proof.
  unfold table_ok. intros Hok Hc Hu.
  apply andb_true_iff in Hok as [_ Hok].
  rewrite forallb_forall in Hok.
  specialize (Hok c (proj1 (list_elem_of_In _ _) Hc)).
  unfold unique_ok in Hok. rewrite Hu in Hok. simpl in Hok.
  by apply bool_decide_eq_true in Hok.
Qed.

Lemma table_ok_not_null cls t r c :
  table_ok cls t = true → r ∈ t → c ∈ columns cls →
  nullable c && negb (primary_key c) = false →
  getattr r (cname c) ≠ VNone.
Proof.
  unfold table_ok. intros Hok Hr Hc Hn.
  apply andb_true_iff in Hok as [Hok _].
  rewrite forallb_forall in Hok.
  specialize (Hok r (proj1 (list_elem_of_In _ _) Hr)).
  unfold not_null_ok in Hok. rewrite forallb_forall in Hok.
  specialize (Hok c (proj1 (list_elem_of_In _ _) Hc)).
  rewrite Hn in Hok. simpl in Hok.
  apply negb_true_iff, bool_decide_eq_false in Hok. done.
Qed.

Lemma column_values_app k (t1 t2 : list row) :
  column_values k (t1 ++ t2) = column_values k t1 ++ column_values k t2.
Proof. unfold column_values. by rewrite map_app, filter_app. Qed.

Lemma elem_of_column_values k (t : list row) v :
  v ∈ column_values k t ↔ v ≠ VNone ∧ ∃ r, r ∈ t ∧ getattr r k = v.
Proof.
  unfold column_values. rewrite list_elem_of_filter.
  split.
  - intros [Hv Hin]. split; [done|].
    apply (list_elem_of_fmap_1 (λ r : row, getattr r k)) in Hin
      as (r & -> & Hr). eauto.
  - intros [Hv (r & Hr & <-)]. split; [done|].
    by apply (list_elem_of_fmap_2 (λ r : row, getattr r k)).
Qed.

(** In a table that keeps its constraints, a row is determined by the
    value (not NULL) it holds in a unique column. *)
Lemma unique_column_determines_row k (t : list row) r1 r2 :
  NoDup (column_values k t) →
  r1 ∈ t → r2 ∈ t → getattr r1 k ≠ VNone → getattr r1 k = getattr r2 k →
  r1 = r2.
Proof.
  induction t as [|r t IH]; intros Hnd H1 H2 Hv Heq.
  - by apply not_elem_of_nil in H1.
  - change (r :: t) with ([r] ++ t) in Hnd.
    rewrite column_values_app in Hnd.
    apply NoDup_app in Hnd as (_ & Hdisj & Hnd).
    assert (∀ r', r' ∈ t → getattr r' k ≠ VNone → getattr r k ≠ getattr r' k)
      as Hfresh.
    { intros r' Hr' Hv' E. apply (Hdisj (getattr r k)).
      - apply elem_of_column_values. split; [congruence|].
        exists r. split; [left|done].
      - apply elem_of_column_values. split; [congruence|]. eauto. }
    apply elem_of_cons in H1 as [->|H1]; apply elem_of_cons in H2 as [->|H2].
    + done.
    + exfalso. apply (Hfresh r2 H2); congruence.
    + exfalso. apply (Hfresh r1 H1 Hv). done.
    + by apply IH.
Qed.

(** The rows the mapper writes. *)
Lemma lookup_row_of_columns (f : column → value) (cols : list column) c :
  NoDup (map cname cols) → c ∈ cols →
  (list_to_map (map (λ c, (cname c, f c)) cols) : gmap string value)
    !! cname c = Some (f c).
Proof.
  induction cols as [|c0 cols IH]; intros Hnd Hc.
  - by apply not_elem_of_nil in Hc.
  - simpl in *. apply NoDup_cons in Hnd as [Hnotin Hnd].
    apply elem_of_cons in Hc as [->|Hc].
    + by rewrite lookup_insert_eq.
    + rewrite lookup_insert_ne; [by apply IH|].
      intros E. apply Hnotin. rewrite E.
      by apply (list_elem_of_fmap_2 cname).
Qed.

Lemma getattr_insert_row cls thing w c :
  c ∈ columns cls →
  getattr (insert_row cls thing w) (cname c) = insert_value c thing w.
Proof.
  intros Hc. unfold getattr, insert_row.
  by rewrite (lookup_row_of_columns (λ c, insert_value c thing w))
    by (apply columns_NoDup || done).
Qed.


(** ** [add] *)

Lemma bind_params_None_elem cls ps k v :
  bind_params cls ps = None → (k, v) ∈ ps →
  ∃ v', process_bind_param (coltype_of cls k) v = inr v'.
Proof.
  induction ps as [|[k0 v0] ps IH]; simpl; intros Hb Hin.
  - by apply not_elem_of_nil in Hin.
  - destruct (process_bind_param (coltype_of cls k0) v0) as [e|v1] eqn:E;
      [done|].
    apply elem_of_cons in Hin as [[= -> ->]|Hin]; eauto.
Qed.

Lemma UUIDType_bound v v' :
  process_bind_param UUIDType v = inr v' → v = VNone ∨ ∃ u, v = VUuid u.
Proof. destruct v as [|u|s|z|t]; simpl; try destruct s; eauto; done. Qed.

Lemma add_inv cls kwargs w thing w' :
  add cls kwargs w = (inr thing, w') →
  let r := insert_row cls thing w in
  thing = with_id kwargs w
  ∧ map_Forall (λ k _, hasattr cls k = true) kwargs
  ∧ bind_params cls (row_params cls r) = None
  ∧ table_ok cls (table cls w ++ [r]) = true
  ∧ table cls w' = table cls w ++ [r]
  ∧ (∀ cls', cls' ≠ cls → table cls' w' = table cls' w).
Proof.
  unfold add, construct, with_id. unfold_M.
  destruct (decide (map_Forall _ kwargs)) as [Hattr|]; [|done].
  destruct (decide (getattr kwargs "id" = VNone)) as [Hid|Hid]; simpl;
    unfold DBSession_add_new, execute_write; simpl;
    match goal with
    | |- context [bind_params cls ?ps] =>
        destruct (bind_params cls ps) eqn:Hb; [done|]
    end;
    match goal with
    | |- context [table_ok cls ?t] => destruct (table_ok cls t) eqn:Hok; [|done]
    end;
    intros [= <- <-]; repeat split; try done;
    try (by rewrite table_set_table_eq);
    try (intros cls' Hne; by rewrite table_set_table_ne).
Qed.

Lemma getattr_with_id kwargs w :
  getattr (with_id kwargs w) "id" =
  if decide (getattr kwargs "id" = VNone) then VUuid (entropy w (drawn w))
  else getattr kwargs "id".
Proof.
  unfold with_id. destruct (decide _); [|done].
  unfold getattr. by rewrite lookup_insert_eq.
Qed.

Lemma lookup_with_id_ne kwargs w k :
  k ≠ "id" → with_id kwargs w !! k = kwargs !! k.
Proof.
  intros Hk. unfold with_id. destruct (decide _); [|done].
  by rewrite lookup_insert_ne.
Qed.

(** What a successful [add] leaves behind: one more row, last in the
    table, under an id no earlier row holds; [get_by_id] finds it. *)
Lemma add_stored cls kwargs w thing w' :
  add cls kwargs w = (inr thing, w') →
  let r := insert_row cls thing w in
  thing = with_id kwargs w
  ∧ table cls w' = table cls w ++ [r]
  ∧ getattr r "id" = getattr thing "id"
  ∧ (∃ u, getattr thing "id" = VUuid u)
  ∧ (∀ r0, r0 ∈ table cls w → getattr r0 "id" ≠ getattr thing "id")
  ∧ get_by_id cls (getattr thing "id") w' = (inr (Some r), w').
Proof.
  intros Hadd. apply add_inv in Hadd as (Hthing & _ & Hb & Hok & Ht & _).
  set (r := insert_row cls thing w) in *. simpl.
  assert (getattr thing "id" ≠ VNone) as Hnn.
  { rewrite Hthing, getattr_with_id. by destruct (decide _). }
  assert (getattr r "id" = getattr thing "id") as Hrid.
  { pose proof (getattr_insert_row cls thing w (pk "id") (pk_id_column cls))
      as H.
    change (cname (pk "id")) with "id" in H. unfold r. rewrite H.
    unfold insert_value. change (cname (pk "id")) with "id".
    by destruct (getattr thing "id"). }
  assert (∃ u, getattr thing "id" = VUuid u) as [u Hu].
  { destruct (bind_params_None_elem cls _ "id" (getattr r "id") Hb) as [v' Hv'].
    - unfold row_params.
      apply (list_elem_of_fmap_2 (λ c, (cname c, getattr r (cname c)))
               (columns cls) (pk "id")), pk_id_column.
    - rewrite coltype_of_id, Hrid in Hv'.
      apply UUIDType_bound in Hv' as [?|?]; done. }
  assert (∀ r0, r0 ∈ table cls w → getattr r0 "id" ≠ getattr thing "id")
    as Hfresh.
  { intros r0 Hr0 E.
    pose proof (table_ok_unique cls _ (pk "id") Hok (pk_id_column cls) eq_refl)
      as Hnd.
    simpl in Hnd. rewrite column_values_app in Hnd.
    apply NoDup_app in Hnd as (_ & Hdisj & _).
    apply (Hdisj (getattr thing "id")).
    - apply elem_of_column_values. eauto.
    - apply elem_of_column_values. split; [done|].
      exists r. split; [left|done]. }
  repeat split; try done; [by exists u|].
  rewrite Hu. change (VUuid u) with (id_value (Some u)).
  rewrite get_by_id_id, Ht, filter_app.
  replace (filter _ (table cls w)) with (@nil row).
  - rewrite filter_cons_True by (by rewrite Hrid, Hu). done.
  - symmetry. apply filter_none. intros r0 Hr0. simpl. rewrite <- Hu.
    by apply Hfresh.
Qed.


Lemma add_admin_type :
  add UserTypes admin_type world0 = (inr admin_thing, world1).
Proof. vm_compute. reflexivity. Qed.





(** ** [delete_by_id] and [update_by_id] *)






(** When no row holds the id, [delete_by_id] returns [None] and the tables
    do not change. *)
Lemma delete_by_id_absent cls o w :
  (∀ r, r ∈ table cls w → getattr r "id" ≠ id_value o) →
  ∃ w', delete_by_id cls (id_value o) w = (inr None, w')
      ∧ ∀ cls', table cls' w' = table cls' w.
Proof.
  intros Hno. exists w. split; [|done].
  unfold delete_by_id. unfold_M. rewrite get_by_id_id.
  by rewrite filter_none.
Qed.





(** ** Playlists and their recordings *)

Lemma query_recordings_join_playlist o w :
  query_recordings_join_assignments [("playlist_id", id_value o)] w =
  (inr (remove_dups
     (r ← table Recordings w;
      a ← table PlaylistAssignments w;
      if decide (getattr a "recording_id" ≠ VNone
                 ∧ getattr r "id" = getattr a "recording_id"
                 ∧ satisfies [("playlist_id", id_value o)] a)
      then [r] else [])), w).
Proof.
  unfold query_recordings_join_assignments.
  by rewrite (bind_params_id PlaylistAssignments "playlist_id" o).
Qed.

(** C7: in a world whose recordings keep their constraints,
    [get_recordings_by_playlist_id] returns, each once, exactly the stored
    recordings that some assignment links to the playlist, and [to_dict]
    of a playlist holds the serializations of exactly those recordings
    under the key [recordings]. *)
Theorem playlist_recordings (o : option uuid) (self : obj) (w : world) :
  table_ok Recordings (table Recordings w) = true →
  getattr self "id" = id_value o →
  ∃ L, get_recordings_by_playlist_id (id_value o) w = (inr L, w)
     ∧ NoDup L
     ∧ (∀ r, r ∈ L ↔
             r ∈ table Recordings w
             ∧ ∃ a, a ∈ table PlaylistAssignments w
                  ∧ getattr a "playlist_id" = id_value o
                  ∧ getattr a "recording_id" = getattr r "id")
     ∧ ∃ d, Playlists_to_dict self w = (inr d, w)
          ∧ dict_get "recordings" d =
            Some (PyList (map (λ r, PyDict (Recordings_to_dict r)) L)).
Proof.
  intros Hok Hself. unfold get_recordings_by_playlist_id.
  eexists. split; [apply query_recordings_join_playlist|].
  split; [apply NoDup_remove_dups|]. split.
  - intros r. rewrite elem_of_remove_dups, list_elem_of_bind. split.
    + intros (r' & Hr & Hr'). apply list_elem_of_bind in Hr as (a & Hr & Ha).
      destruct (decide _) as [(Hnn & Hjoin & Hsat)|]; [|by apply not_elem_of_nil in Hr].
      apply list_elem_of_singleton in Hr as ->. split; [done|].
      exists a. split; [done|]. split; [|done].
      by apply Forall_cons in Hsat as [Hsat _].
    + intros (Hr & a & Ha & Hp & Hrec). exists r. split; [|done].
      apply list_elem_of_bind. exists a. split; [|done].
      rewrite decide_True; [left|].
      split; [|split; [done|by repeat constructor]].
      rewrite Hrec.
      apply (table_ok_not_null Recordings _ r (pk "id") Hok Hr
               (pk_id_column Recordings) eq_refl).
  - eexists. split.
    + unfold Playlists_to_dict. unfold_M. rewrite Hself.
      unfold get_recordings_by_playlist_id.
      rewrite query_recordings_join_playlist. reflexivity.
    + reflexivity.
Qed.

Lemma playlist_recordings_witness :
  ∃ L, get_recordings_by_playlist_id (VUuid 1%N) world_assigned
       = (inr L, world_assigned)
     ∧ (recording0 ∈ L)
     ∧ ∃ d, Playlists_to_dict {["id" := VUuid 1%N]} world_assigned
            = (inr d, world_assigned)
          ∧ dict_get "recordings" d =
            Some (PyList (map (λ r, PyDict (Recordings_to_dict r)) L)).
Proof.
  destruct (playlist_recordings (Some 1%N) {["id" := VUuid 1%N]} world_assigned)
    as (L & Hget & _ & Hmem & Hdict).
  - vm_compute. reflexivity.
  - vm_compute. reflexivity.
  - exists L. split; [exact Hget|]. split; [|exact Hdict].
    apply Hmem. split.
    + unfold world_assigned.
      rewrite table_set_table_ne, table_set_table_eq by done. left.
    + exists assignment0. split; [|split; vm_compute; reflexivity].
      unfold world_assigned. rewrite table_set_table_eq. left.
Defined.

(** ** Writes that keep the constraints *)

Lemma column_values_singleton k (r : row) :
  column_values k [r] = if decide (getattr r k ≠ VNone) then [getattr r k] else [].
Proof. unfold column_values. simpl. by rewrite filter_cons, filter_nil. Qed.

Lemma column_values_cons k (r : row) t :
  column_values k (r :: t) = column_values k [r] ++ column_values k t.
Proof. by rewrite <- column_values_app. Qed.

Lemma table_ok_intro cls t :
  (∀ r, r ∈ t → not_null_ok cls r = true) →
  (∀ c, c ∈ columns cls → unique c || primary_key c = true →
        NoDup (column_values (cname c) t)) →
  table_ok cls t = true.
Proof.
  intros Hnn Hu. unfold table_ok. apply andb_true_iff. split.
  - apply forallb_forall. intros r Hr. by apply Hnn, list_elem_of_In.
  - apply forallb_forall. intros c Hc. apply list_elem_of_In in Hc.
    unfold unique_ok. destruct (unique c || primary_key c) eqn:E; [|done].
    simpl. apply bool_decide_eq_true. by apply Hu.
Qed.

Lemma table_ok_row cls t r :
  table_ok cls t = true → r ∈ t → not_null_ok cls r = true.
Proof.
  unfold table_ok. intros Hok Hr. apply andb_true_iff in Hok as [Hok _].
  rewrite forallb_forall in Hok. by apply Hok, list_elem_of_In.
Qed.

(** Appending a row whose value in the column is NULL or new. *)
Lemma NoDup_column_values_snoc k t (r : row) :
  NoDup (column_values k t) →
  (getattr r k = VNone ∨ ∀ r0, r0 ∈ t → getattr r0 k ≠ getattr r k) →
  NoDup (column_values k (t ++ [r])).
Proof.
  intros Hnd Hr. rewrite column_values_app, column_values_singleton.
  destruct (decide _) as [Hv|Hv]; [|by rewrite app_nil_r].
  apply NoDup_app. split; [done|]. split; [|apply NoDup_singleton].
  intros v Hin Hin'. apply list_elem_of_singleton in Hin' as ->.
  apply elem_of_column_values in Hin as (_ & r0 & Hr0 & E).
  destruct Hr as [?|Hr]; [done|]. by apply (Hr r0).
Qed.

(** A stored row occurs once in a table that keeps its constraints. *)
Lemma table_row_split cls t u :
  table_ok cls t = true → u ∈ t →
  ∃ t1 t2, t = t1 ++ (u :: t2) ∧ (u ∉ t1) ∧ (u ∉ t2).
Proof.
  intros Hok Hu.
  pose proof (table_ok_unique cls _ (pk "id") Hok (pk_id_column cls) eq_refl)
    as Hnd.
  pose proof (table_ok_not_null cls _ u (pk "id") Hok Hu (pk_id_column cls)
                eq_refl) as Hnn.
  change (cname (pk "id")) with "id" in *.
  apply list_elem_of_split in Hu as (t1 & t2 & ->). exists t1, t2.
  split; [done|].
  rewrite column_values_app, column_values_cons, column_values_singleton in Hnd.
  rewrite decide_True in Hnd by done.
  apply NoDup_app in Hnd as (_ & Hdisj & Hnd2).
  apply NoDup_cons in Hnd2 as [Hnotin _].
  split.
  - intros Hin. apply (Hdisj (getattr u "id")).
    + apply elem_of_column_values. eauto.
    + left.
  - intros Hin. apply Hnotin. apply elem_of_column_values. eauto.
Qed.

(** Replacing a row by one that holds, in the column, the same value, NULL,
    or a value no other row holds. *)
Lemma NoDup_column_values_replace k t1 t2 (u u' : row) :
  NoDup (column_values k (t1 ++ u :: t2)) →
  (getattr u' k = getattr u k ∨ getattr u' k = VNone
   ∨ ∀ r, r ∈ t1 ++ t2 → getattr r k ≠ getattr u' k) →
  NoDup (column_values k (t1 ++ u' :: t2)).
Proof.
  intros Hnd Hu'.
  rewrite column_values_app, column_values_cons in *.
  rewrite (column_values_singleton k u) in Hnd.
  rewrite (column_values_singleton k u').
  destruct Hu' as [E|[E|Hfresh]].
  - by rewrite E.
  - rewrite decide_False by (by rewrite E; intros ?). simpl.
    destruct (decide (getattr u k ≠ VNone)); [|done].
    apply NoDup_app in Hnd as (H1 & Hdisj & H2).
    apply NoDup_cons in H2 as [_ H2].
    apply NoDup_app. repeat split; try done.
    intros v Hv1 Hv2. apply (Hdisj v Hv1). by right.
  - assert (NoDup (column_values k t1 ++ column_values k t2)) as Hrest.
    { destruct (decide (getattr u k ≠ VNone)); [|done].
      apply NoDup_app in Hnd as (H1 & Hdisj & H2).
      apply NoDup_cons in H2 as [_ H2].
      apply NoDup_app. repeat split; try done.
      intros v Hv1 Hv2. apply (Hdisj v Hv1). by right. }
    destruct (decide (getattr u' k ≠ VNone)) as [Hv|Hv]; [|exact Hrest].
    apply NoDup_app in Hrest as (H1 & Hdisj & H2).
    apply NoDup_app. split; [done|]. split.
    + intros v Hv1 Hv2. apply elem_of_cons in Hv2 as [->|Hv2].
      * apply elem_of_column_values in Hv1 as (_ & r & Hr & E).
        apply (Hfresh r); [|done]. apply elem_of_app. by left.
      * by apply (Hdisj v).
    + apply NoDup_cons. split; [|done].
      intros Hin. apply elem_of_column_values in Hin as (_ & r & Hr & E).
      apply (Hfresh r); [|done]. apply elem_of_app. by right.
Qed.

Lemma map_replace_row (t1 t2 : list row) (u u' : row) :
  u ∉ t1 → u ∉ t2 →
  map (λ r, if decide (r = u) then u' else r) (t1 ++ u :: t2) = t1 ++ u' :: t2.
Proof.
  intros H1 H2.
  assert (∀ t : list row, u ∉ t →
            map (λ r, if decide (r = u) then u' else r) t = t) as Hid.
  { induction t as [|r t IH]; intros Hnotin; [done|]. simpl.
    apply not_elem_of_cons in Hnotin as [Hne Hnotin].
    rewrite decide_False by done. by rewrite IH. }
  rewrite map_app. simpl. rewrite decide_True by done.
  by rewrite !Hid.
Qed.

(** ** [Users.update_social_login] *)

Lemma insert_value_no_default c thing w :
  server_default c = false → insert_value c thing w = getattr thing (cname c).
Proof.
  intros H. unfold insert_value. rewrite H.
  by destruct (getattr thing (cname c)).
Qed.

(** The columns of [Users] under a unique or primary key constraint. *)
Lemma Users_unique_columns c :
  c ∈ columns Users → unique c || primary_key c = true →
  cname c = "id" ∨ cname c = "twitter_handle" ∨ cname c = "twitter_user_id".
Proof.
  unfold columns. simpl. intros Hc Hu.
  repeat (apply elem_of_cons in Hc as [->|Hc]; [by eauto|]).
  by apply not_elem_of_nil in Hc.
Qed.

Lemma login_kwargs_accepted h info p :
  map_Forall (λ k _, hasattr Users k = true) (login_kwargs h info p).
Proof.
  intros k v Hk. unfold login_kwargs in Hk.
  apply elem_of_list_to_map_2 in Hk.
  repeat (apply elem_of_cons in Hk as [[= -> _]|Hk]; [by vm_compute|]).
  by apply not_elem_of_nil in Hk.
Qed.

Ltac solve_elem_of := simpl; repeat first [by left | right].

Ltac login_field Hcol Hown c :=
  etrans; [apply (Hcol c); [apply Hown; solve_elem_of | done]
          | reflexivity].

Lemma login_row_fields h info p w :
  let r := insert_row Users (login_thing h info p w) w in
  getattr r "id" = VUuid (entropy w (drawn w))
  ∧ getattr r "twitter_handle" = VText h
  ∧ getattr r "display_name" = profile_name_formatted info
  ∧ getattr r "email" = VText (h +:+ "@" +:+ p +:+ ".social.auth")
  ∧ getattr r "profile_photo_url" = profile_photos_0_value info
  ∧ getattr r "twitter_auth_secret" = credentials_oauthAccessTokenSecret info
  ∧ getattr r "twitter_auth_token" = credentials_oauthAccessToken info
  ∧ getattr r "twitter_user_id" = profile_accounts_0_userid info.
Proof.
  simpl.
  assert (∀ c, c ∈ columns Users → server_default c = false →
            getattr (insert_row Users (login_thing h info p w) w) (cname c)
            = getattr (login_thing h info p w) (cname c)) as Hcol.
  { intros c Hc Hsd. rewrite getattr_insert_row by done.
    by apply insert_value_no_default. }
  assert (∀ c, c ∈ own_columns Users → c ∈ columns Users) as Hown.
  { intros c Hc. unfold columns. apply elem_of_app. by left. }
  split_and!.
  - login_field Hcol Hown (pk "id").
  - login_field Hcol Hown (text_unique "twitter_handle").
  - login_field Hcol Hown (text "display_name").
  - login_field Hcol Hown (text "email").
  - login_field Hcol Hown (text_null "profile_photo_url").
  - login_field Hcol Hown (text_null "twitter_auth_secret").
  - login_field Hcol Hown (text_null "twitter_auth_token").
  - login_field Hcol Hown (text_unique "twitter_user_id").
Qed.

Lemma Users_not_null_columns c :
  c ∈ columns Users → nullable c && negb (primary_key c) = false →
  cname c = "id" ∨ cname c = "display_name" ∨ cname c = "email".
Proof.
  unfold columns. simpl. intros Hc Hu.
  repeat (apply elem_of_cons in Hc as [->|Hc]; [by eauto|]).
  by apply not_elem_of_nil in Hc.
Qed.

Lemma not_null_ok_intro cls r :
  (∀ c, c ∈ columns cls → nullable c && negb (primary_key c) = false →
        getattr r (cname c) ≠ VNone) →
  not_null_ok cls r = true.
Proof.
  intros H. unfold not_null_ok. apply forallb_forall. intros c Hc.
  apply list_elem_of_In in Hc.
  destruct (nullable c && negb (primary_key c)) eqn:E; [done|]. simpl.
  apply negb_true_iff, bool_decide_eq_false. by apply H.
Qed.

(** The insert of the login path succeeds for a handle no row holds, when
    the display name is present, the user id is absent or new, and the id
    drawn is new. *)
Lemma login_insert h info p w :
  table_ok Users (table Users w) = true →
  (∀ r, r ∈ table Users w → getattr r "twitter_handle" ≠ VText h) →
  profile_name_formatted info ≠ VNone →
  (profile_accounts_0_userid info = VNone
   ∨ ∀ r, r ∈ table Users w →
          getattr r "twitter_user_id" ≠ profile_accounts_0_userid info) →
  (∀ r, r ∈ table Users w → getattr r "id" ≠ VUuid (entropy w (drawn w))) →
  add Users (login_kwargs h info p) w =
  (inr (login_thing h info p w),
   set_table Users
     (table Users w ++ [insert_row Users (login_thing h info p w) w])
     (World (tables w) (entropy w) (S (drawn w)) (clock w))).
Proof.
  intros Hok Hhandle Hname Huid Hfresh.
  destruct (login_row_fields h info p w)
    as (Fid & Fh & Fn & Fe & _ & _ & _ & Fu).
  assert (table_ok Users
            (table Users w ++ [insert_row Users (login_thing h info p w) w])
          = true) as Hok'.
  { apply table_ok_intro.
    - intros r Hr. apply elem_of_app in Hr as [Hr|Hr].
      + by apply (table_ok_row Users (table Users w)).
      + apply list_elem_of_singleton in Hr as ->.
        apply not_null_ok_intro. intros c Hc Hn.
        destruct (Users_not_null_columns c Hc Hn) as [->|[->| ->]].
        * by rewrite Fid.
        * by rewrite Fn.
        * by rewrite Fe.
    - intros c Hc Hu.
      pose proof (table_ok_unique Users _ c Hok Hc Hu) as Hnd.
      apply NoDup_column_values_snoc; [done|].
      destruct (Users_unique_columns c Hc Hu) as [->|[->| ->]].
      + right. intros r Hr. rewrite Fid. by apply Hfresh.
      + right. intros r Hr. rewrite Fh. by apply Hhandle.
      + rewrite Fu. destruct Huid as [?|Huid]; [by left|]. right. done. }
  unfold add, construct. unfold_M.
  rewrite decide_True by apply login_kwargs_accepted.
  rewrite decide_True by reflexivity. cbv beta iota delta [uuid4].
  unfold DBSession_add_new, execute_write.
  match goal with
  | |- context [bind_params Users ?ps] =>
      replace (bind_params Users ps) with (@None exn)
        by (vm_compute; reflexivity)
  end.
  match goal with
  | |- context [table_ok Users ?t] =>
      change (table_ok Users t) with
        (table_ok Users
           (table Users w ++ [insert_row Users (login_thing h info p w) w]))
  end.
  rewrite Hok'. reflexivity.
Qed.

(** With a row of that handle in the table, the insert is refused. *)
Lemma login_insert_refused h info p w u :
  table_ok Users (table Users w) = true →
  u ∈ table Users w → getattr u "twitter_handle" = VText h →
  add Users (login_kwargs h info p) w =
  (inl (IntegrityError (DriverError "constraint failed")),
   World (tables w) (entropy w) (S (drawn w)) (clock w)).
Proof.
  intros Hok Hu Hh.
  destruct (login_row_fields h info p w) as (_ & Fh & _).
  assert (table_ok Users
            (table Users w ++ [insert_row Users (login_thing h info p w) w])
          = false) as Hok'.
  { apply not_true_is_false. intros Hok'.
    assert (text_unique "twitter_handle" ∈ columns Users) as Hc
      by (unfold columns; solve_elem_of).
    pose proof (table_ok_unique Users _ _ Hok' Hc eq_refl) as Hnd.
    change (cname (text_unique "twitter_handle")) with "twitter_handle" in Hnd.
    rewrite column_values_app in Hnd.
    apply NoDup_app in Hnd as (_ & Hdisj & _).
    apply (Hdisj (VText h)).
    - apply elem_of_column_values. split; [done|]. eauto.
    - apply elem_of_column_values. split; [done|].
      eexists. split; [left|done]. }
  unfold add, construct. unfold_M.
  rewrite decide_True by apply login_kwargs_accepted.
  rewrite decide_True by reflexivity. cbv beta iota delta [uuid4].
  unfold DBSession_add_new, execute_write.
  match goal with
  | |- context [bind_params Users ?ps] =>
      replace (bind_params Users ps) with (@None exn)
        by (vm_compute; reflexivity)
  end.
  match goal with
  | |- context [table_ok Users ?t] =>
      change (table_ok Users t) with
        (table_ok Users
           (table Users w ++ [insert_row Users (login_thing h info p w) w]))
  end.
  rewrite Hok'. reflexivity.
Qed.

(** The row the fallback update writes in place of [u]. *)
Lemma login_update_fields info (u : row) :
  let u' : row := list_to_map (login_values info) ∪ u in
  getattr u' "twitter_auth_secret" = credentials_oauthAccessTokenSecret info
  ∧ getattr u' "twitter_auth_token" = credentials_oauthAccessToken info
  ∧ getattr u' "twitter_user_id" = profile_accounts_0_userid info
  ∧ ∀ k, k ≠ "twitter_auth_secret" → k ≠ "twitter_auth_token" →
         k ≠ "twitter_user_id" → u' !! k = u !! k.
Proof.
  simpl. unfold getattr, login_values. split_and!.
  - by erewrite lookup_union_Some_l by reflexivity.
  - by erewrite lookup_union_Some_l by reflexivity.
  - by erewrite lookup_union_Some_l by reflexivity.
  - intros k H1 H2 H3. apply lookup_union_r. simpl.
    by rewrite !lookup_insert_ne by done.
Qed.

Lemma satisfies_1 k v (r : row) : satisfies [(k, v)] r ↔ getattr r k = v.
Proof.
  unfold satisfies. split.
  - intros H. by apply Forall_cons in H as [H _].
  - intros H. by repeat constructor.
Qed.

(** The fallback of the login path: the update in place and the refetch. *)
Lemma login_fallback h info w u :
  table_ok Users (table Users w) = true →
  u ∈ table Users w → getattr u "twitter_handle" = VText h →
  (profile_accounts_0_userid info = VNone
   ∨ ∀ r, r ∈ table Users w → r ≠ u →
          getattr r "twitter_user_id" ≠ profile_accounts_0_userid info) →
  (query_update Users [("twitter_handle", VText h)] (login_values info);;
   user ← query_first Users [("twitter_handle", VText h)];
   match user with
   | Some u => mret (true, getattr u "id")
   | None => raise (AttributeError "'NoneType' object has no attribute 'id'")
   end) w =
  (inr (true, getattr u "id"),
   set_table Users
     (map (λ r, if decide (r = u) then list_to_map (login_values info) ∪ u else r)
          (table Users w)) w).
Proof.
  intros Hok Hu Hh Huid.
  set (u' := (list_to_map (login_values info) ∪ u : row)).
  destruct (login_update_fields info u) as (_ & _ & Fu & Fkeep).
  fold u' in Fu, Fkeep.
  assert (∀ k, k ≠ "twitter_auth_secret" → k ≠ "twitter_auth_token" →
               k ≠ "twitter_user_id" → getattr u' k = getattr u k) as Fkeep'.
  { intros k H1 H2 H3. unfold getattr. by rewrite Fkeep. }
  assert (text_unique "twitter_handle" ∈ columns Users) as Hch
    by (unfold columns; solve_elem_of).
  pose proof (table_ok_unique Users _ _ Hok Hch eq_refl) as Hndh.
  change (cname (text_unique "twitter_handle")) with "twitter_handle" in Hndh.
  assert (∀ r, r ∈ table Users w →
               (satisfies [("twitter_handle", VText h)] r ↔ r = u)) as Hsat.
  { intros r Hr. rewrite satisfies_1. split; [|by intros ->].
    intros Hrh.
    apply (unique_column_determines_row "twitter_handle" (table Users w));
      try done; by rewrite Hrh. }
  assert (map (λ r, if decide (satisfies [("twitter_handle", VText h)] r)
                    then list_to_map (login_values info) ∪ r else r)
              (table Users w)
          = map (λ r, if decide (r = u) then u' else r) (table Users w)) as Hmap.
  { apply map_ext_in. intros r Hr. apply list_elem_of_In in Hr.
    pose proof (Hsat r Hr) as Hiff.
    destruct (decide (satisfies _ r)) as [Hs|Hs], (decide (r = u)) as [->|Hne];
      try done; tauto. }
  destruct (table_row_split Users _ u Hok Hu) as (t1 & t2 & Ht & H1 & H2).
  assert (map (λ r, if decide (r = u) then u' else r) (table Users w)
          = t1 ++ u' :: t2) as Hmap'.
  { rewrite Ht. by apply map_replace_row. }
  assert (table_ok Users (t1 ++ u' :: t2) = true) as Hok'.
  { apply table_ok_intro.
    - intros r Hr.
      apply elem_of_app in Hr as [Hr|Hr];
        [|apply elem_of_cons in Hr as [->|Hr]].
      + apply (table_ok_row Users (table Users w)); [done|].
        rewrite Ht. apply elem_of_app. by left.
      + apply not_null_ok_intro. intros c Hc Hn.
        pose proof (table_ok_not_null Users _ u c Hok Hu Hc Hn) as Hnn.
        destruct (Users_not_null_columns c Hc Hn) as [E|[E|E]];
          rewrite E in *; by rewrite Fkeep'.
      + apply (table_ok_row Users (table Users w)); [done|].
        rewrite Ht. apply elem_of_app. right. by right.
    - intros c Hc Hun.
      pose proof (table_ok_unique Users _ c Hok Hc Hun) as Hnd.
      rewrite Ht in Hnd.
      apply (NoDup_column_values_replace _ _ _ u u' Hnd).
      destruct (Users_unique_columns c Hc Hun) as [E|[E|E]]; rewrite E.
      + left. by apply Fkeep'.
      + left. by apply Fkeep'.
      + rewrite Fu. destruct Huid as [?|Huid]; [by right; left|].
        right. right. intros r Hr. apply Huid.
        * rewrite Ht. apply elem_of_app in Hr as [Hr|Hr];
            apply elem_of_app; [by left|right; by right].
        * intros ->. apply elem_of_app in Hr as [Hr|Hr]; done. }
  unfold_M. unfold query_update.
  replace (bind_params Users [("twitter_handle", VText h)]) with (@None exn)
    by reflexivity.
  unfold execute_write.
  replace (bind_params Users (login_values info)) with (@None exn)
    by reflexivity.
  rewrite Hmap, Hmap', Hok'. unfold query_first, query_all. unfold_M.
  replace (bind_params Users [("twitter_handle", VText h)]) with (@None exn)
    by reflexivity.
  rewrite table_set_table_eq, filter_app.
  rewrite (filter_none _ t1).
  - rewrite filter_cons_True.
    + simpl. by rewrite Fkeep'.
    + apply satisfies_1. by rewrite Fkeep'.
  - intros r Hr Hs. apply H1.
    assert (r ∈ table Users w) as Hr'
      by (rewrite Ht; apply elem_of_app; by left).
    apply (Hsat r Hr') in Hs. by subst.
Qed.

(** C2 (as amended): a call of [update_social_login] with a handle no row
    holds, a display name, a user id that is absent or held by no row and a
    fresh id drawn, inserts a row with that handle and the fields of
    [auth_info] and returns [(False, id)] with the new id.  A call with a
    handle that a row [u] holds is refused the insert for uniqueness and,
    when its user id is absent or held by no other row, updates the user
    id, the token and the secret of [u] in place and returns [(True, id)]
    with the id of [u]. *)
Theorem update_social_login_insert_then_update
    (h p p' : string) (info info' : auth_info) (w w' : world) (u : obj) :
  table_ok Users (table Users w) = true →
  (∀ r, r ∈ table Users w → getattr r "twitter_handle" ≠ VText h) →
  profile_name_formatted info ≠ VNone →
  (profile_accounts_0_userid info = VNone
   ∨ ∀ r, r ∈ table Users w →
          getattr r "twitter_user_id" ≠ profile_accounts_0_userid info) →
  (∀ r, r ∈ table Users w → getattr r "id" ≠ VUuid (entropy w (drawn w))) →
  table_ok Users (table Users w') = true →
  u ∈ table Users w' → getattr u "twitter_handle" = VText h →
  (profile_accounts_0_userid info' = VNone
   ∨ ∀ r, r ∈ table Users w' → r ≠ u →
          getattr r "twitter_user_id" ≠ profile_accounts_0_userid info') →
  (∃ w1 r,
      update_social_login h info p w = (inr (false, getattr r "id"), w1)
      ∧ table Users w1 = table Users w ++ [r]
      ∧ (∀ cls, cls ≠ Users → table cls w1 = table cls w)
      ∧ getattr r "id" = VUuid (entropy w (drawn w))
      ∧ getattr r "twitter_handle" = VText h
      ∧ getattr r "display_name" = profile_name_formatted info
      ∧ getattr r "email" = VText (h +:+ "@" +:+ p +:+ ".social.auth")
      ∧ getattr r "profile_photo_url" = profile_photos_0_value info
      ∧ getattr r "twitter_auth_secret" = credentials_oauthAccessTokenSecret info
      ∧ getattr r "twitter_auth_token" = credentials_oauthAccessToken info
      ∧ getattr r "twitter_user_id" = profile_accounts_0_userid info)
  ∧ (∃ w2 u',
      (add Users (login_kwargs h info' p') w').1
        = inl (IntegrityError (DriverError "constraint failed"))
      ∧ update_social_login h info' p' w' = (inr (true, getattr u "id"), w2)
      ∧ table Users w2 =
          map (λ r, if decide (r = u) then u' else r) (table Users w')
      ∧ (∀ cls, cls ≠ Users → table cls w2 = table cls w')
      ∧ getattr u' "twitter_auth_secret" = credentials_oauthAccessTokenSecret info'
      ∧ getattr u' "twitter_auth_token" = credentials_oauthAccessToken info'
      ∧ getattr u' "twitter_user_id" = profile_accounts_0_userid info'
      ∧ ∀ k, k ≠ "twitter_auth_secret" → k ≠ "twitter_auth_token" →
             k ≠ "twitter_user_id" → u' !! k = u !! k).
Proof.
  intros Hok Hh Hn Huid Hfresh Hok' Hu Huh Huid'. split.
  - exists (set_table Users
              (table Users w ++ [insert_row Users (login_thing h info p w) w])
              (World (tables w) (entropy w) (S (drawn w)) (clock w))),
           (insert_row Users (login_thing h info p w) w).
    destruct (login_row_fields h info p w)
      as (Fid & Fh & Fn & Fe & Fp & Fs & Ft & Fu).
    split_and!;
      [ | | | exact Fid | exact Fh | exact Fn | exact Fe | exact Fp
      | exact Fs | exact Ft | exact Fu ].
    + unfold update_social_login, try_except. unfold mbind at 1. unfold M_bind.
      rewrite (login_insert h info p w) by done. unfold_M.
      assert (getattr (login_thing h info p w) "id"
              = VUuid (entropy w (drawn w))) as ->.
      { unfold getattr, login_thing. by rewrite lookup_insert_eq. }
      rewrite Fid. reflexivity.
    + by rewrite table_set_table_eq.
    + intros cls Hne. by rewrite table_set_table_ne.
  - exists (set_table Users
              (map (λ r, if decide (r = u)
                         then list_to_map (login_values info') ∪ u else r)
                   (table Users w'))
              (World (tables w') (entropy w') (S (drawn w')) (clock w'))),
           (list_to_map (login_values info') ∪ u).
    destruct (login_update_fields info' u) as (Fs & Ft & Fu & Fkeep).
    split_and!; [ | | | | exact Fs | exact Ft | exact Fu | exact Fkeep ].
    + by rewrite (login_insert_refused h info' p' w' u).
    + unfold update_social_login, try_except. unfold mbind at 1. unfold M_bind.
      rewrite (login_insert_refused h info' p' w' u) by done.
      change (is_IntegrityError _) with true. cbv iota.
      apply (login_fallback h info'
               (World (tables w') (entropy w') (S (drawn w')) (clock w')) u);
        done.
    + by rewrite table_set_table_eq.
    + intros cls Hne. by rewrite table_set_table_ne.
Qed.

Lemma table_world0 cls : table cls world0 = [].
Proof. reflexivity. Qed.

Lemma table_Users_world_alice : table Users world_alice = [alice_row].
Proof. reflexivity. Qed.

Lemma update_social_login_insert_then_update_witness :
  (update_social_login "alice" alice_info "twitter" world0).1
    = inr (false, VUuid 100%N)
  ∧ (update_social_login "alice" alice_info' "twitter" world_alice).1
    = inr (true, VUuid 100%N).
Proof.
  destruct (update_social_login_insert_then_update
              "alice" "twitter" "twitter" alice_info alice_info'
              world0 world_alice alice_row)
    as [(w1 & r & Hfirst & _ & _ & Hid & _) (w2 & u' & _ & Hlater & _)].
  - vm_compute. reflexivity.
  - intros r Hr. rewrite table_world0 in Hr. by apply not_elem_of_nil in Hr.
  - discriminate.
  - right. intros r Hr. rewrite table_world0 in Hr.
    by apply not_elem_of_nil in Hr.
  - intros r Hr. rewrite table_world0 in Hr. by apply not_elem_of_nil in Hr.
  - vm_compute. reflexivity.
  - rewrite table_Users_world_alice. left.
  - vm_compute. reflexivity.
  - right. intros r Hr Hne. rewrite table_Users_world_alice in Hr.
    by apply list_elem_of_singleton in Hr.
  - split.
    + rewrite Hfirst. simpl. by rewrite Hid.
    + rewrite Hlater. vm_compute. reflexivity.
Defined.

(** C2 as stated fails for a first call whose user id another row holds:
    no row has the handle, yet nothing is inserted and the call ends in an
    [AttributeError]. *)
Lemma update_social_login_new_handle_not_inserted :
  (∀ r, r ∈ table Users world_alice → getattr r "twitter_handle" ≠ VText "bob")
  ∧ (update_social_login "bob" alice_info "twitter" world_alice).1
    = inl (AttributeError "'NoneType' object has no attribute 'id'")
  ∧ table Users (update_social_login "bob" alice_info "twitter" world_alice).2
    = table Users world_alice.
Proof.
  split; [|split].
  - intros r Hr. rewrite table_Users_world_alice in Hr.
    apply list_elem_of_singleton in Hr as ->. vm_compute. discriminate.
  - vm_cast_no_check
      (eq_refl (@inl exn (bool * value)
                  (AttributeError "'NoneType' object has no attribute 'id'"))).
  - vm_cast_no_check (eq_refl (table Users world_alice)).
Qed.

(** ** The constraints hold in every reachable state *)

Lemma table_ok_nil cls : table_ok cls [] = true.
Proof.
  apply table_ok_intro.
  - intros r Hr. by apply not_elem_of_nil in Hr.
  - intros c _ _. apply NoDup_nil_2.
Qed.

Lemma wf_init e c : wf (World ∅ e 0 c).
Proof. intros cls. apply table_ok_nil. Qed.

Lemma wf_same_tables w w' :
  (∀ cls, table cls w' = table cls w) → wf w → wf w'.
Proof. intros Heq Hwf cls. rewrite Heq. apply Hwf. Qed.

Lemma wf_set_table cls t w :
  wf w → table_ok cls t = true → wf (set_table cls t w).
Proof.
  intros Hwf Hok cls'. destruct (decide (cls' = cls)) as [->|Hne].
  - by rewrite table_set_table_eq.
  - rewrite table_set_table_ne by done. apply Hwf.
Qed.

Lemma column_values_filter_sublist k (P : row → Prop) `{∀ r, Decision (P r)}
    (t : list row) :
  column_values k (filter P t) `sublist_of` column_values k t.
Proof.
  induction t as [|r t IH]; [done|].
  rewrite filter_cons. rewrite (column_values_cons k r t).
  destruct (decide (P r)).
  - rewrite (column_values_cons k r (filter P t)). by apply sublist_app.
  - by apply sublist_inserts_l.
Qed.

Lemma table_ok_filter cls (P : row → Prop) `{∀ r, Decision (P r)} t :
  table_ok cls t = true → table_ok cls (filter P t) = true.
Proof.
  intros Hok. apply table_ok_intro.
  - intros r Hr. apply list_elem_of_filter in Hr as [_ Hr].
    by apply (table_ok_row cls t).
  - intros c Hc Hu. eapply sublist_NoDup.
    + by apply (table_ok_unique cls t c).
    + apply column_values_filter_sublist.
Qed.

(** A write either stores a table that keeps the constraints or fails and
    changes nothing. *)
Lemma execute_write_cases cls ps t' w :
  (execute_write cls ps t' w = (inr (), set_table cls t' w)
   ∧ table_ok cls t' = true)
  ∨ ∃ e, execute_write cls ps t' w = (inl e, w).
Proof.
  unfold execute_write. destruct (bind_params cls ps); [by eauto|].
  destruct (table_ok cls t') eqn:E; by eauto.
Qed.

Lemma safe_read {A} (m : M A) : (∀ w, (m w).2 = w) → safe m.
Proof. intros Hm w Hwf. rewrite Hm. by split. Qed.

Lemma safe_discard {A} (m : M A) : safe m → safe (discard m).
Proof.
  intros Hm w Hwf. destruct (Hm w Hwf) as [Hwf' Hframe].
  unfold discard. unfold_M.
  destruct (m w) as [[e|x] w']; simpl in *; split; try done.
  - intros _. apply Hframe. by eexists.
  - by intros [e ?].
Qed.

Lemma safe_add cls kwargs : safe (add cls kwargs).
Proof.
  intros w Hwf. unfold add, construct. unfold_M.
  destruct (decide (map_Forall _ kwargs)); [|by split].
  destruct (decide (getattr kwargs "id" = VNone)); simpl;
    unfold DBSession_add_new;
    match goal with
    | |- context [execute_write cls ?ps ?t ?w1] =>
        destruct (execute_write_cases cls ps t w1) as [[-> Hok]|[e' ->]]
    end; simpl; split; try done;
    try (by apply wf_set_table);
    by intros [? ?].
Qed.

Lemma safe_get_by_id cls id : safe (get_by_id cls id).
Proof. apply safe_read, get_by_id_world. Qed.

Lemma safe_query_all cls conds : safe (query_all cls conds).
Proof. apply safe_read, query_all_world. Qed.

Lemma safe_delete_by_id cls id : safe (delete_by_id cls id).
Proof.
  intros w Hwf. unfold delete_by_id. unfold_M.
  pose proof (get_by_id_world cls id w) as Hw.
  destruct (get_by_id cls id w) as [[e|[t|]] w']; simpl in *; subst w';
    split; try done.
  - unfold DBSession_delete. simpl. apply wf_set_table; [done|].
    apply table_ok_filter, Hwf.
  - unfold DBSession_delete. simpl. by intros [? ?].
Qed.

Lemma safe_update_by_id cls id kwargs : safe (update_by_id cls id kwargs).
Proof.
  intros w Hwf. unfold update_by_id. unfold_M.
  pose proof (get_by_id_world cls id w) as Hw.
  destruct (get_by_id cls id w) as [[e|[t|]] w']; simpl in *; subst w';
    try (split; [done|]; try done; by intros [? ?]).
  unfold DBSession_add_dirty.
  match goal with
  | |- context [execute_write cls ?ps ?t' w] =>
      destruct (execute_write_cases cls ps t' w) as [[-> Hok]|[e' ->]]
  end; simpl; split; try done.
  - by apply wf_set_table.
  - by intros [? ?].
Qed.

Lemma map_id_when_none (P : row → Prop) `{∀ r, Decision (P r)}
    (f : row → row) (t : list row) :
  (∀ r, r ∈ t → ¬ P r) → map (λ r, if decide (P r) then f r else r) t = t.
Proof.
  induction t as [|r t IH]; intros Hno; [done|]. simpl.
  rewrite decide_False by (apply Hno; left).
  rewrite IH; [done|]. intros r' Hr'. apply Hno. by right.
Qed.

(** The fallback of the login path keeps the handle of the rows it
    updates. *)
Lemma login_values_keep_handle info h (r : row) :
  satisfies [("twitter_handle", VText h)] r →
  satisfies [("twitter_handle", VText h)] (list_to_map (login_values info) ∪ r).
Proof.
  rewrite !satisfies_1. intros Hr.
  destruct (login_update_fields info r) as (_ & _ & _ & Fkeep).
  unfold getattr in *. by rewrite Fkeep.
Qed.

Lemma safe_update_social_login h info p : safe (update_social_login h info p).
Proof.
  intros w Hwf.
  unfold update_social_login.
  unfold_M.
  pose proof (safe_add Users (login_kwargs h info p) w Hwf) as Hadd.
  destruct (add Users (login_kwargs h info p) w) as [[e|thing] w1].
  2: destruct Hadd as [Hwf1 _].
  2: split; [exact Hwf1|].
  2: intros [e0 He0].
  2: discriminate He0.
  destruct Hadd as [Hwf1 Hframe1].
  assert (∀ cls, table cls w1 = table cls w) as Hsame.
  { apply Hframe1. by exists e. }
  clear Hframe1.
  change ((inl e, w1).2) with w1 in Hwf1.
  destruct (is_IntegrityError e); [|split; [exact Hwf1|intros _; exact Hsame]].
  unfold query_update.
  assert (bind_params Users [("twitter_handle", VText h)] = None) as Hb by reflexivity.
  rewrite Hb.
  match goal with
  | |- context [execute_write Users ?ps ?t' w1] =>
      destruct (execute_write_cases Users ps t' w1) as [[-> Hok]|[e' ->]]
  end.
  2: split; [exact Hwf1|intros _; exact Hsame].
  match type of Hok with table_ok Users ?t' = true => set (t1 := t') in * end.
  assert (wf (set_table Users t1 w1)) as Hwf2 by (by apply wf_set_table).
  unfold query_first, query_all.
  unfold_M.
  rewrite Hb, table_set_table_eq.
  destruct (filter _ t1) as [|u l] eqn:Hf.
  - split; [exact Hwf2|]. intros _ cls.
    change (table cls (set_table Users t1 w1) = table cls w).
    destruct (decide (cls = Users)) as [->|Hne].
    + rewrite table_set_table_eq, <- Hsame. unfold t1.
      apply map_id_when_none. intros r Hr Hsat.
      assert (list_to_map (login_values info) ∪ r ∈ t1) as Hin.
      { unfold t1.
        apply (list_elem_of_fmap_2'
                 (λ r : row, if decide (satisfies [("twitter_handle", VText h)] r)
                             then list_to_map (login_values info) ∪ r else r)
                 _ r); [done|].
        by rewrite decide_True. }
      apply (filter_nil_not_elem_of _ _ _ Hf) in Hin; [done|].
      by apply login_values_keep_handle.
    + rewrite table_set_table_ne by done. apply Hsame.
  - split; [exact Hwf2|]. intros [e0 He0]. discriminate He0.
Qed.

Lemma delete_by_playlist_id_and_recording_id_world pid rid w :
  (delete_by_playlist_id_and_recording_id pid rid w).2 = w.
Proof.
  unfold delete_by_playlist_id_and_recording_id. unfold mbind at 1.
  unfold M_bind.
  pose proof (query_first_world PlaylistAssignments
                [("playlist_id", pid); ("recording_id", rid)] w) as Hw.
  destruct (query_first _ _ w) as [[e|[a|]] w']; simpl in *; by subst.
Qed.

Lemma safe_remove_recording_ny_id pid rid : safe (remove_recording_ny_id pid rid).
Proof.
  intros w Hwf. unfold remove_recording_ny_id. unfold_M.
  pose proof (query_first_world PlaylistAssignments
                [("playlist_id", pid); ("recording_id", rid)] w) as Hw.
  destruct (query_first _ _ w) as [[e|[a|]] w']; simpl in *; subst w';
    split; try done.
  - apply wf_set_table; [done|]. apply table_ok_filter, Hwf.
  - by intros [? ?].
Qed.

Lemma get_recordings_by_playlist_id_world id w :
  (get_recordings_by_playlist_id id w).2 = w.
Proof.
  unfold get_recordings_by_playlist_id, query_recordings_join_assignments.
  by destruct (bind_params _ _).
Qed.

Lemma Playlists_to_dict_world self w : (Playlists_to_dict self w).2 = w.
Proof.
  unfold Playlists_to_dict. unfold_M.
  pose proof (get_recordings_by_playlist_id_world (getattr self "id") w) as Hw.
  destruct (get_recordings_by_playlist_id _ w) as [[e|l] w']; simpl in *;
    by subst.
Qed.

Lemma safe_run o : safe (run o).
Proof.
  destruct o as [cls kwargs|cls|cls id|cls id|cls id kwargs|h info p
                |id|id|id|id|id|pid rid|id|pid rid|id|self|id|id];
    unfold run; apply safe_discard.
  - apply safe_add.
  - apply safe_query_all.
  - apply safe_get_by_id.
  - apply safe_delete_by_id.
  - apply safe_update_by_id.
  - apply safe_update_social_login.
  - apply safe_query_all.
  - apply safe_query_all.
  - apply safe_query_all.
  - apply safe_query_all.
  - apply safe_query_all.
  - apply safe_read, delete_by_playlist_id_and_recording_id_world.
  - apply safe_query_all.
  - apply safe_remove_recording_ny_id.
  - apply safe_read, get_recordings_by_playlist_id_world.
  - apply safe_read, Playlists_to_dict_world.
  - apply safe_query_all.
  - apply safe_query_all.
Qed.

Lemma reachable_wf w : reachable w → wf w.
Proof.
  induction 1 as [e c|w o Hw IH]; [apply wf_init|].
  by apply (safe_run o w).
Qed.

(** * Further properties of the code *)

(** ** Invariants of the reachable states *)


Lemma reachable_world0 : reachable world0.
Proof. apply reachable_init. Qed.



(** X2: an operation that raises, in a reachable state, leaves every table
    as it was. *)
Theorem failed_operation_changes_no_table (o : op) (w : world) (e : exn) :
  reachable w → (run o w).1 = inl e →
  ∀ cls, table cls (run o w).2 = table cls w.
Proof.
  intros Hreach He. apply (safe_run o w (reachable_wf w Hreach)). by exists e.
Qed.

Lemma failed_operation_changes_no_table_witness :
  (run (Add UserTypes ∅) world0).1
    = inl (IntegrityError (DriverError "constraint failed"))
  ∧ ∀ cls, table cls (run (Add UserTypes ∅) world0).2 = table cls world0.
Proof.
  assert ((run (Add UserTypes ∅) world0).1
          = inl (IntegrityError (DriverError "constraint failed"))) as He
    by (vm_compute; reflexivity).
  split; [exact He|].
  exact (failed_operation_changes_no_table (Add UserTypes ∅) world0 _
           reachable_world0 He).
Defined.

(** ** [add], [get_all], [delete_by_id], [update_by_id] together *)

Lemma filter_satisfies_nil (t : list row) : filter (satisfies []) t = t.
Proof.
  induction t as [|r t IH]; [done|].
  rewrite filter_cons_True by constructor. by rewrite IH.
Qed.


Lemma get_all_table cls w : get_all cls w = (inr (table cls w), w).
Proof. unfold get_all, query_all. simpl. by rewrite filter_satisfies_nil. Qed.

(** X3: [get_all] returns the rows of the table in insertion order and
    changes nothing; after a successful [add] it returns the former rows
    followed by the record just stored. *)
Theorem get_all_after_add (cls : record_type) (kwargs : gmap string value)
    (w w' : world) (thing : obj) :
  add cls kwargs w = (inr thing, w') →
  ∃ things r,
    get_all cls w = (inr things, w)
    ∧ get_all cls w' = (inr (things ++ [r]), w')
    ∧ getattr r "id" = getattr thing "id"
    ∧ get_by_id cls (getattr thing "id") w' = (inr (Some r), w').
Proof.
  intros Hadd.
  destruct (add_stored _ _ _ _ _ Hadd) as (_ & Ht & Hrid & _ & _ & Hget).
  exists (table cls w), (insert_row cls thing w).
  rewrite !get_all_table, Ht. done.
Qed.

Lemma get_all_after_add_witness :
  ∃ r, get_all UserTypes world0 = (inr [], world0)
     ∧ get_all UserTypes world1 = (inr [r], world1)
     ∧ getattr r "id" = VUuid 100%N.
Proof.
  destruct (get_all_after_add UserTypes admin_type world0 world1 admin_thing)
    as (things & r & H0 & H1 & Hid & _).
  - vm_compute. reflexivity.
  - rewrite get_all_table in H0. injection H0 as <-.
    exists r. split; [by rewrite get_all_table|]. split; [exact H1|].
    rewrite Hid. vm_compute. reflexivity.
Defined.



(** X5: [delete_by_id] is idempotent: after a delete by an id ([None] or a
    UUID), a second delete by the same id finds nothing, returns [None]
    and changes no table. *)
Theorem delete_by_id_twice (cls : record_type) (o : option uuid) (w : world) :
  let w1 := (delete_by_id cls (id_value o) w).2 in
  (delete_by_id cls (id_value o) w1).1 = inr None
  ∧ ∀ cls', table cls' (delete_by_id cls (id_value o) w1).2 = table cls' w1.
Proof.
  simpl.
  assert (∀ r, r ∈ table cls (delete_by_id cls (id_value o) w).2 →
               getattr r "id" ≠ id_value o) as Hgone.
  { unfold delete_by_id. unfold_M. rewrite get_by_id_id.
    destruct (filter _ (table cls w)) as [|t l] eqn:Hf; simpl.
    - intros r Hr E. by apply (filter_nil_not_elem_of _ _ r Hf E).
    - assert (getattr t "id" = id_value o) as Ht.
      { assert (t ∈ filter (λ r, getattr r "id" = id_value o) (table cls w))
          as Hin by (rewrite Hf; left).
        by apply list_elem_of_filter in Hin as [? _]. }
      intros r. rewrite table_set_table_eq, Ht.
      intros Hr. by apply list_elem_of_filter in Hr as [? _]. }
  destruct (delete_by_id_absent cls o _ Hgone) as (w' & Hdel & Hsame).
  rewrite Hdel. by split.
Qed.

(** X6: [update_by_id] with an id no row holds returns [None] and changes
    nothing, whatever the keyword arguments. *)
Theorem update_by_id_absent (cls : record_type) (o : option uuid)
    (kwargs : gmap string value) (w : world) :
  (∀ r, r ∈ table cls w → getattr r "id" ≠ id_value o) →
  update_by_id cls (id_value o) kwargs w = (inr None, w).
Proof.
  intros Hno. unfold update_by_id. unfold_M. rewrite get_by_id_id.
  by rewrite filter_none.
Qed.

Lemma update_by_id_absent_witness :
  update_by_id UserTypes (VUuid 5%N) rename_kwargs world1 = (inr None, world1).
Proof.
  apply (update_by_id_absent UserTypes (Some 5%N)).
  intros r Hr. unfold world1 in Hr. rewrite table_set_table_eq in Hr.
  apply list_elem_of_singleton in Hr as ->. vm_compute. discriminate.
Defined.



Lemma required_columns_have_no_default cls c :
  c ∈ columns cls → nullable c = false → server_default c = false.
Proof.
  unfold columns. intros Hc Hn.
  destruct cls; simpl in Hc;
    repeat (apply elem_of_cons in Hc as [->|Hc]; [done|]);
    by apply not_elem_of_nil in Hc.
Qed.

(** X8: a successful [add] was given a value for every column declared
    [nullable=False]; leaving one out, or passing [None] for it, makes
    [add] fail. *)
Theorem add_requires_not_null (cls : record_type) (kwargs : gmap string value)
    (w w' : world) (thing : obj) (c : column) :
  add cls kwargs w = (inr thing, w') →
  c ∈ columns cls → nullable c = false → cname c ≠ "id" →
  ∃ v, kwargs !! cname c = Some v ∧ v ≠ VNone.
Proof.
  intros Hadd Hc Hn Hid.
  destruct (add_inv _ _ _ _ _ Hadd) as (Hthing & _ & _ & Hok & _).
  assert (getattr (insert_row cls thing w) (cname c) ≠ VNone) as Hnn.
  { apply (table_ok_not_null cls _ _ c Hok); [|done|by rewrite Hn].
    apply elem_of_app. right. left. }
  rewrite getattr_insert_row in Hnn by done.
  rewrite insert_value_no_default in Hnn
    by (by apply (required_columns_have_no_default cls)).
  rewrite Hthing in Hnn. unfold getattr in Hnn.
  rewrite lookup_with_id_ne in Hnn by done.
  destruct (kwargs !! cname c) as [v|]; [|done]. by exists v.
Qed.

Lemma add_requires_not_null_witness :
  ∃ v, admin_type !! "name" = Some v ∧ v ≠ VNone.
Proof.
  apply (add_requires_not_null UserTypes admin_type world0 world1 admin_thing
           (text "name")).
  - vm_compute. reflexivity.
  - unfold columns. solve_elem_of.
  - reflexivity.
  - discriminate.
Defined.

(** X9: the lookups of playlists by owner and of people and recordings by
    organization return exactly the stored rows whose column holds the
    given id, in order, and change nothing. *)
Theorem other_lookups_by_foreign_key :
  filtered_lookup Playlists "author_id" Playlists_get_by_owner_id
  ∧ filtered_lookup People "organization_id" People_get_by_organization_id
  ∧ filtered_lookup Recordings "organization_id"
      Recordings_get_by_organization_id.
Proof. repeat split; by apply query_all_filtered_lookup. Qed.

(** X10: the two writers that look a record up by id first,
    [delete_by_id] and [update_by_id], raise whatever [get_by_id] raises
    and do not reach the database after that. *)
Theorem get_by_id_error_propagates (cls : record_type) (id : value)
    (kwargs : gmap string value) (w : world) (e : exn) :
  (get_by_id cls id w).1 = inl e →
  delete_by_id cls id w = (inl e, w)
  ∧ update_by_id cls id kwargs w = (inl e, w).
Proof.
  intros He. pose proof (get_by_id_world cls id w) as Hw.
  unfold delete_by_id, update_by_id. unfold_M.
  destruct (get_by_id cls id w) as [r w']. simpl in *. by subst.
Qed.

Lemma get_by_id_error_propagates_witness :
  delete_by_id Users (VText "not-a-uuid") world_alice
    = (inl (ValueError "bytes is not a 16-char string"), world_alice)
  ∧ update_by_id Users (VText "not-a-uuid") rename_kwargs world_alice
    = (inl (ValueError "bytes is not a 16-char string"), world_alice).
Proof.
  apply get_by_id_error_propagates.
  by rewrite get_by_id_malformed_text.
Defined.

(** X11: in a reachable state [get_by_id(None)] finds nothing: no stored
    row has an empty id. *)
Theorem get_by_id_None (cls : record_type) (w : world) :
  reachable w → get_by_id cls VNone w = (inr None, w).
Proof.
  intros Hreach. change VNone with (id_value None). rewrite get_by_id_id.
  rewrite filter_none; [done|]. intros r Hr.
  apply (table_ok_not_null cls _ r (pk "id") (reachable_wf w Hreach cls) Hr
           (pk_id_column cls) eq_refl).
Qed.

Lemma reachable_world_alice : reachable world_alice.
Proof.
  change world_alice with
    (update_social_login "alice" alice_info "twitter" world0).2.
  replace ((update_social_login "alice" alice_info "twitter" world0).2)
    with ((run (UpdateSocialLogin "alice" alice_info "twitter") world0).2)
    by (vm_compute; reflexivity).
  apply reachable_step, reachable_world0.
Qed.

Lemma get_by_id_None_witness :
  get_by_id Users VNone world_alice = (inr None, world_alice).
Proof. apply get_by_id_None, reachable_world_alice. Defined.

(** ** [Playlists.remove_recording_ny_id] *)




(** X13: without a matching assignment [remove_recording_ny_id] hands
    [None] to [DBSession.delete], which refuses it: the call raises and
    changes nothing. *)
Theorem remove_recording_ny_id_absent (po ro : option uuid) (w : world) :
  (∀ a, a ∈ table PlaylistAssignments w →
        ¬ (getattr a "playlist_id" = id_value po
           ∧ getattr a "recording_id" = id_value ro)) →
  remove_recording_ny_id (id_value po) (id_value ro) w =
  (inl (UnmappedInstanceError "Class 'builtins.NoneType' is not mapped"), w).
Proof.
  intros Hno. unfold remove_recording_ny_id. unfold_M.
  rewrite query_first_assignment. by rewrite filter_none.
Qed.

Lemma remove_recording_ny_id_absent_witness :
  remove_recording_ny_id (VUuid 1%N) (VUuid 3%N) world_assigned =
  (inl (UnmappedInstanceError "Class 'builtins.NoneType' is not mapped"),
   world_assigned).
Proof.
  apply (remove_recording_ny_id_absent (Some 1%N) (Some 3%N)).
  intros a Ha. unfold world_assigned in Ha. rewrite table_set_table_eq in Ha.
  apply list_elem_of_singleton in Ha as ->. intros [_ H].
  vm_compute in H. discriminate H.
Defined.

(** ** What [update_social_login] returns *)

Lemma add_error_tables cls kwargs w e :
  (add cls kwargs w).1 = inl e →
  ∀ cls', table cls' (add cls kwargs w).2 = table cls' w.
Proof.
  unfold add, construct. unfold_M.
  destruct (decide (map_Forall _ kwargs)); [|done].
  destruct (decide (getattr kwargs "id" = VNone)); simpl;
    unfold DBSession_add_new;
    match goal with
    | |- context [execute_write cls ?ps ?t ?w1] =>
        destruct (execute_write_cases cls ps t w1) as [[-> Hok]|[e' ->]]
    end; simpl; done.
Qed.

(** X14: whenever [update_social_login] returns, the id it returns is the
    id of a stored user with the given handle; with [False] that user is
    the row just appended, with [True] the number of users is unchanged. *)
Theorem update_social_login_returns_stored_user (h p : string)
    (info : auth_info) (w w' : world) (b : bool) (id : value) :
  update_social_login h info p w = (inr (b, id), w') →
  ∃ r, r ∈ table Users w'
     ∧ getattr r "twitter_handle" = VText h
     ∧ getattr r "id" = id
     ∧ (b = false → table Users w' = table Users w ++ [r])
     ∧ (b = true → length (table Users w') = length (table Users w)).
Proof.
  unfold update_social_login. unfold_M.
  pose proof (add_stored Users (login_kwargs h info p) w) as Hstored.
  pose proof (add_error_tables Users (login_kwargs h info p) w) as Herr.
  destruct (add Users (login_kwargs h info p) w) as [[e|thing] w1].
  - clear Hstored. specialize (Herr e eq_refl).
    change ((inl e, w1).2) with w1 in Herr.
    destruct (is_IntegrityError e); [|done].
    unfold query_update.
    assert (bind_params Users [("twitter_handle", VText h)] = None) as Hb
      by reflexivity.
    rewrite Hb.
    match goal with
    | |- context [execute_write Users ?ps ?t' w1] =>
        destruct (execute_write_cases Users ps t' w1) as [[-> Hok]|[e' ->]];
        [|done]
    end.
    match type of Hok with table_ok Users ?t' = true => set (t1 := t') in * end.
    unfold query_first, query_all. unfold_M. rewrite Hb, table_set_table_eq.
    destruct (filter _ t1) as [|u l] eqn:Hf; [done|].
    intros [= <- <- <-]. exists u.
    assert (u ∈ filter (satisfies [("twitter_handle", VText h)]) t1) as Hu
      by (rewrite Hf; left).
    apply list_elem_of_filter in Hu as [Hsat Hu].
    rewrite table_set_table_eq. split_and!; try done.
    + by apply satisfies_1.
    + intros _. unfold t1. by rewrite length_map, Herr.
  - clear Herr. specialize (Hstored thing w1 eq_refl).
    destruct Hstored as (Hthing & Ht & Hrid & _ & _ & _).
    intros [= <- <- <-].
    exists (insert_row Users thing w).
    assert (thing = login_thing h info p w) as ->.
    { rewrite Hthing. unfold with_id. by rewrite decide_True by reflexivity. }
    destruct (login_row_fields h info p w) as (_ & Fh & _).
    split_and!; try done.
    rewrite Ht. apply elem_of_app. right. left.
Qed.

Lemma update_social_login_returns_stored_user_witness :
  ∃ r, r ∈ table Users world_alice
     ∧ getattr r "twitter_handle" = VText "alice"
     ∧ getattr r "id" = VUuid 100%N.
Proof.
  destruct (update_social_login_returns_stored_user "alice" "twitter"
              alice_info world0 world_alice false (VUuid 100%N))
    as (r & Hin & Hh & Hid & _).
  - vm_compute. reflexivity.
  - by exists r.
Defined.

(** ** Each operation writes one table at most *)


Lemma only_writes_read cls {A} (m : M A) :
  (∀ w, (m w).2 = w) → only_writes cls m.
Proof. intros Hm w cls' _. by rewrite Hm. Qed.








(** ** Timestamps and serialization *)

(** X16: a successful [add] that is given no creation or modification time
    stores the time of the database clock in that column. *)
Theorem add_stamps_datetimes (cls : record_type) (kwargs : gmap string value)
    (w w' : world) (thing : obj) (k : string) :
  add cls kwargs w = (inr thing, w') →
  k = "creation_datetime" ∨ k = "modified_datetime" →
  getattr kwargs k = VNone →
  ∃ r, get_by_id cls (getattr thing "id") w' = (inr (Some r), w')
     ∧ getattr r k = VDateTime (clock w).
Proof.
  intros Hadd Hk Hnone.
  destruct (add_stored _ _ _ _ _ Hadd) as (Hthing & _ & _ & _ & _ & Hget).
  exists (insert_row cls thing w). split; [done|].
  assert (datetime_now k ∈ columns cls) as Hc.
  { unfold columns. apply elem_of_app. right.
    destruct Hk as [-> | ->]; unfold TimeStampMixin; solve_elem_of. }
  pose proof (getattr_insert_row cls thing w (datetime_now k) Hc) as Hrow.
  change (cname (datetime_now k)) with k in Hrow. rewrite Hrow.
  unfold insert_value. change (cname (datetime_now k)) with k.
  assert (getattr thing k = VNone) as ->; [|done].
  rewrite Hthing. unfold getattr in *. rewrite lookup_with_id_ne; [done|].
  by destruct Hk as [-> | ->].
Qed.

Lemma add_stamps_datetimes_witness :
  ∃ r, get_by_id UserTypes (getattr admin_thing "id") world1
       = (inr (Some r), world1)
     ∧ getattr r "modified_datetime" = VDateTime (clock world0).
Proof.
  apply (add_stamps_datetimes UserTypes admin_type world0 world1 admin_thing).
  - vm_compute. reflexivity.
  - by right.
  - vm_compute. reflexivity.
Defined.

(** X17: whatever the class, the dictionary [to_dict] returns keeps the
    two entries of the mixin, the id and the creation time as strings, and
    never has the modification time. *)
Theorem to_dict_keeps_mixin_entries (cls : record_type) (self : obj)
    (w : world) (d : list (string * pyobj)) :
  (to_dict_of cls self w).1 = inr d →
  dict_get "id" d = Some (PyStr (getattr self "id"))
  ∧ dict_get "creation_datetime" d
    = Some (PyStr (getattr self "creation_datetime"))
  ∧ dict_get "modified_datetime" d = None.
Proof.
  destruct cls; simpl;
    try (intros [= <-]; repeat split; reflexivity).
  unfold Playlists_to_dict. unfold_M.
  destruct (get_recordings_by_playlist_id (getattr self "id") w)
    as [[e|l] w']; simpl; [done|].
  intros [= <-]. repeat split; reflexivity.
Qed.

Lemma to_dict_keeps_mixin_entries_witness :
  dict_get "id" (Users_to_dict alice_row) = Some (PyStr (VUuid 100%N)).
Proof.
  destruct (to_dict_keeps_mixin_entries Users alice_row world_alice
              (Users_to_dict alice_row) eq_refl) as [Hid _].
  rewrite Hid. vm_compute. reflexivity.
Defined.

(** X18: [Users.to_dict] serializes the display name, the handle, the
    e-mail address, the user type and the organization, and none of the
    Twitter credentials of the user. *)
Theorem Users_to_dict_hides_credentials (self : obj) :
  dict_keys (Users_to_dict self)
  = ["id"; "creation_datetime"; "display_name"; "twitter_handle"; "email";
     "user_type"; "organization_id"]
  ∧ dict_get "twitter_auth_token" (Users_to_dict self) = None
  ∧ dict_get "twitter_auth_secret" (Users_to_dict self) = None
  ∧ dict_get "twitter_user_id" (Users_to_dict self) = None.
Proof. repeat split; reflexivity. Qed.

(** ** More on lookups and writes by id *)

(** X19: for [None] or a UUID, [get_by_id] returns without changing
    anything; a record it returns is a stored row holding that id, and it
    returns [None] only when no stored row holds the id. *)
Theorem get_by_id_result (cls : record_type) (o : option uuid) (w : world) :
  ∃ res, get_by_id cls (id_value o) w = (inr res, w)
       ∧ match res with
         | Some r => r ∈ table cls w ∧ getattr r "id" = id_value o
         | None => ∀ r, r ∈ table cls w → getattr r "id" ≠ id_value o
         end.
Proof.
  eexists. split; [apply get_by_id_id|].
  destruct (filter _ (table cls w)) as [|r l] eqn:Hf; simpl.
  - intros r Hr E. by apply (filter_nil_not_elem_of _ _ r Hf E).
  - assert (r ∈ filter (λ r, getattr r "id" = id_value o) (table cls w))
      as Hin by (rewrite Hf; left).
    by apply list_elem_of_filter in Hin as [? ?].
Qed.

(** X20: [add] never stores a second row under an id in use: given the id
    of a stored row it raises and leaves every table as it was. *)
Theorem add_refuses_id_in_use (cls : record_type) (kwargs : gmap string value)
    (w : world) (r : obj) (u : uuid) :
  r ∈ table cls w → getattr r "id" = VUuid u →
  kwargs !! "id" = Some (VUuid u) →
  ∃ e, (add cls kwargs w).1 = inl e
     ∧ ∀ cls', table cls' (add cls kwargs w).2 = table cls' w.
Proof.
  intros Hr Hrid Hk.
  destruct (add cls kwargs w) as [[e|thing] w'] eqn:Hadd.
  - exists e. split; [done|].
    pose proof (add_error_tables cls kwargs w e) as Herr.
    rewrite Hadd in Herr. by apply Herr.
  - exfalso.
    destruct (add_stored _ _ _ _ _ Hadd) as (Hthing & _ & _ & _ & Hfresh & _).
    apply (Hfresh r Hr). rewrite Hrid, Hthing, getattr_with_id.
    unfold getattr. rewrite Hk. by rewrite decide_False.
Qed.

Lemma add_refuses_id_in_use_witness :
  ∃ e, (add UserTypes admin_thing world1).1 = inl e
     ∧ ∀ cls', table cls' (add UserTypes admin_thing world1).2
               = table cls' world1.
Proof.
  apply (add_refuses_id_in_use UserTypes admin_thing world1 admin_row 100%N).
  - unfold world1. rewrite table_set_table_eq. left.
  - vm_compute. reflexivity.
  - vm_compute. reflexivity.
Defined.


